(** * sapper-store: the guarded store of [src/store.js]

    A shallow embedding of the [Store] class (and of its older variant, whose
    constructor reads the persisted snapshot itself) together with the
    properties its specification states about it.

    Conventions of the embedding.
    - JavaScript objects that have an identity the store depends on (the
      state snapshots) live in a heap and are referred to by location; the
      values stored in their fields are carried as immutable trees.
    - Numbers are integers ([Z]); strings are sequences of one-byte code
      units.
    - A method is a computation in the monad [M]: it threads the mutable part
      of the store and of its host (heap, [localStorage], console and window
      events) and either returns or throws.  State written before a throw
      stays written, as in JavaScript. *)

From Stdlib Require Import ZArith Ascii String List Lia.
From Stdlib Require Import Decimal DecimalFacts DecimalString DecimalZ DecimalPos.
From stdpp Require Import gmap strings list fin_maps.

Open Scope string_scope.

(** ** JavaScript values *)

#[local] Set Warnings "-register-all".

(** Values held by state fields, payloads and arguments.  A function
    stored as data is opaque. *)
Inductive value : Type :=
  | VUndefined
  | VNull
  | VBool (b : bool)
  | VNum (n : Z)
  | VStr (s : string)
  | VArr (items : list value)
  | VObj (fields : list (string * value))
  | VFunction.

(** Heap locations of objects with identity. *)
Abbreviation loc := positive (only parsing).

(** What an expression may evaluate to: a value, a reference to a heap
    object, one of the methods every object inherits from
    [Object.prototype], or [Object.prototype] itself. *)
Inductive dyn : Type :=
  | DVal (v : value)
  | DRef (l : loc)
  | DBuiltin (name : string)
  | DObjectPrototype.

(** The function-valued properties of [Object.prototype]. *)
Definition Object_prototype_methods : list string :=
  [ "constructor"; "hasOwnProperty"; "isPrototypeOf"; "propertyIsEnumerable";
    "toLocaleString"; "toString"; "valueOf";
    "__defineGetter__"; "__defineSetter__"; "__lookupGetter__"; "__lookupSetter__" ].

Definition string_of_nat (n : nat) : string := NilZero.string_of_uint (Nat.to_uint n).
Definition string_of_Z (z : Z) : string := NilZero.string_of_int (Z.to_int z).

Definition dquote : ascii := "034"%char.
Definition backslash : ascii := "092"%char.

Fixpoint chars (s : string) : list ascii :=
  match s with
  | EmptyString => []
  | String c r => c :: chars r
  end.

Fixpoint join (sep : string) (l : list string) : string :=
  match l with
  | [] => ""
  | [x] => x
  | x :: r => x +:+ sep +:+ join sep r
  end.

(** ** JSON

    [JSON.stringify] and [JSON.parse] on the values above.  A numeral that
    goes on with a fraction or an exponent mark and a [\u] escape above
    [00ff] lead to values the embedding cannot hold; the parser does not
    decide such texts and reports them apart from syntax errors. *)
Module JSON.

Definition hex_digit (n : N) : ascii :=
  ascii_of_N (if (n <? 10)%N then 48 + n else 87 + n)%N.

Definition escape_char (c : ascii) : string :=
  let n := N_of_ascii c in
  if Ascii.eqb c dquote then String backslash (String dquote "")
  else if Ascii.eqb c backslash then String backslash (String backslash "")
  else if (n =? 8)%N then String backslash "b"
  else if (n =? 9)%N then String backslash "t"
  else if (n =? 10)%N then String backslash "n"
  else if (n =? 12)%N then String backslash "f"
  else if (n =? 13)%N then String backslash "r"
  else if (n <? 32)%N then
    String backslash ("u00" +:+ String (hex_digit (n / 16)) (String (hex_digit (n mod 16)) ""))
  else String c "".

Fixpoint escape (s : string) : string :=
  match s with
  | EmptyString => ""
  | String c r => escape_char c +:+ escape r
  end.

Definition quote (s : string) : string :=
  String dquote (escape s +:+ String dquote "").

(** [JSON.stringify]: [None] stands for the result [undefined]. *)
Fixpoint stringify (v : value) : option string :=
  match v with
  | VUndefined | VFunction => None
  | VNull => Some "null"
  | VBool true => Some "true"
  | VBool false => Some "false"
  | VNum n => Some (string_of_Z n)
  | VStr s => Some (quote s)
  | VArr items =>
      Some ("[" +:+ join "," (List.map (fun x => default "null" (stringify x)) items) +:+ "]")
  | VObj fields =>
      let member (kv : string * value) : list string :=
        match stringify (snd kv) with
        | Some s => [quote (fst kv) +:+ ":" +:+ s]
        | None => []
        end in
      Some ("{" +:+ join "," (List.flat_map member fields) +:+ "}")
  end.

(** Outcome of parsing: a value, a [SyntaxError], or a text left
    undecided because it leads outside the embedding. *)
Inductive outcome (A : Type) : Type :=
  | Parsed (a : A)
  | Malformed
  | Unsupported.
Arguments Parsed {A} a.
Arguments Malformed {A}.
Arguments Unsupported {A}.

Definition is_ws (c : ascii) : bool :=
  let n := N_of_ascii c in
  ((n =? 32) || (n =? 9) || (n =? 10) || (n =? 13))%N.

Fixpoint skip_ws (s : string) : string :=
  match s with
  | String c r => if is_ws c then skip_ws r else s
  | EmptyString => s
  end.

Definition digit_of (c : ascii) : option (uint -> uint) :=
  match c with
  | "0"%char => Some D0 | "1"%char => Some D1 | "2"%char => Some D2
  | "3"%char => Some D3 | "4"%char => Some D4 | "5"%char => Some D5
  | "6"%char => Some D6 | "7"%char => Some D7 | "8"%char => Some D8
  | "9"%char => Some D9 | _ => None
  end.

(** The longest prefix of digits, as a decimal numeral. *)
Fixpoint scan_uint (s : string) : uint * string :=
  match s with
  | String c r =>
      match digit_of c with
      | Some d => let '(u, rest) := scan_uint r in (d u, rest)
      | None => (Nil, s)
      end
  | EmptyString => (Nil, s)
  end.

Definition starts_fraction (s : string) : bool :=
  match s with
  | String c _ => Ascii.eqb c "."%char || Ascii.eqb c "e"%char || Ascii.eqb c "E"%char
  | EmptyString => false
  end.

(** An integer numeral: [0] or a non-zero digit followed by digits. *)
Definition parse_nat (s : string) : outcome (uint * string) :=
  match scan_uint s with
  | (Nil, _) => Malformed
  | (D0 Nil, rest) => if starts_fraction rest then Unsupported else Parsed (D0 Nil, rest)
  | (D0 _, _) => Malformed
  | (u, rest) => if starts_fraction rest then Unsupported else Parsed (u, rest)
  end.

(** [s] without its first character when that is [c]. *)
Definition starts_with (c : ascii) (s : string) : option string :=
  match s with
  | String a r => if Ascii.eqb a c then Some r else None
  | EmptyString => None
  end.

Fixpoint strip_prefix (p s : string) : option string :=
  match p with
  | EmptyString => Some s
  | String a p' =>
      match s with
      | String b s' => if Ascii.eqb a b then strip_prefix p' s' else None
      | EmptyString => None
      end
  end.

Definition parse_number (s : string) : outcome (value * string) :=
  match starts_with "-"%char s with
  | Some r =>
      match parse_nat r with
      | Parsed (u, rest) => Parsed (VNum (Z.of_int (Neg u)), rest)
      | Malformed => Malformed
      | Unsupported => Unsupported
      end
  | None =>
      match parse_nat s with
      | Parsed (u, rest) => Parsed (VNum (Z.of_int (Pos u)), rest)
      | Malformed => Malformed
      | Unsupported => Unsupported
      end
  end.

Definition hex_value (c : ascii) : option N :=
  let n := N_of_ascii c in
  if ((48 <=? n) && (n <=? 57))%N then Some (n - 48)%N
  else if ((97 <=? n) && (n <=? 102))%N then Some (n - 87)%N
  else if ((65 <=? n) && (n <=? 70))%N then Some (n - 55)%N
  else None.

(** The characters of a string literal after its opening quote. *)
Fixpoint parse_chars (s : string) : outcome (string * string) :=
  match s with
  | EmptyString => Malformed
  | String c r =>
      if Ascii.eqb c dquote then Parsed ("", r)
      else if Ascii.eqb c backslash then
        match r with
        | String e r' =>
            let continue (c' : ascii) (rest : string) :=
              match parse_chars rest with
              | Parsed (t, rest') => Parsed (String c' t, rest')
              | other => other
              end in
            if Ascii.eqb e "u"%char then
              match r' with
              | String h1 (String h2 (String h3 (String h4 r''))) =>
                  match hex_value h1, hex_value h2, hex_value h3, hex_value h4 with
                  | Some a, Some b, Some c3, Some d =>
                      match parse_chars r'' with
                      | Parsed (t, rest') =>
                          if ((a =? 0) && (b =? 0))%N
                          then Parsed (String (ascii_of_N (16 * c3 + d)) t, rest')
                          else Unsupported
                      | other => other
                      end
                  | _, _, _, _ => Malformed
                  end
              | _ => Malformed
              end
            else if Ascii.eqb e dquote then continue dquote r'
            else if Ascii.eqb e backslash then continue backslash r'
            else if Ascii.eqb e "/"%char then continue "/"%char r'
            else if Ascii.eqb e "b"%char then continue "008"%char r'
            else if Ascii.eqb e "f"%char then continue "012"%char r'
            else if Ascii.eqb e "n"%char then continue "010"%char r'
            else if Ascii.eqb e "r"%char then continue "013"%char r'
            else if Ascii.eqb e "t"%char then continue "009"%char r'
            else Malformed
        | EmptyString => Malformed
        end
      else if (N_of_ascii c <? 32)%N then Malformed
      else
        match parse_chars r with
        | Parsed (t, rest) => Parsed (String c t, rest)
        | other => other
        end
  end.

Definition literal (lit : string) (v : value) (s : string) : outcome (value * string) :=
  match strip_prefix lit s with
  | Some rest => Parsed (v, rest)
  | None => Malformed
  end.

(** Recursive descent over the JSON grammar; [fuel] bounds the nesting of
    calls and is taken from the length of the text. *)
Fixpoint parse_value (fuel : nat) (s : string) : outcome (value * string) :=
  match fuel with
  | O => Malformed
  | S n =>
      match skip_ws s with
      | String c r =>
          if Ascii.eqb c dquote then
            match parse_chars r with
            | Parsed (t, rest) => Parsed (VStr t, rest)
            | Malformed => Malformed
            | Unsupported => Unsupported
            end
          else if Ascii.eqb c "["%char then
            match starts_with "]"%char (skip_ws r) with
            | Some rest => Parsed (VArr [], rest)
            | None =>
                match parse_elements n r with
                | Parsed (vs, rest) => Parsed (VArr vs, rest)
                | Malformed => Malformed
                | Unsupported => Unsupported
                end
            end
          else if Ascii.eqb c "{"%char then
            match starts_with "}"%char (skip_ws r) with
            | Some rest => Parsed (VObj [], rest)
            | None =>
                match parse_members n r with
                | Parsed (fs, rest) => Parsed (VObj fs, rest)
                | Malformed => Malformed
                | Unsupported => Unsupported
                end
            end
          else if Ascii.eqb c "n"%char then literal "null" VNull (String c r)
          else if Ascii.eqb c "t"%char then literal "true" (VBool true) (String c r)
          else if Ascii.eqb c "f"%char then literal "false" (VBool false) (String c r)
          else parse_number (String c r)
      | EmptyString => Malformed
      end
  end
with parse_elements (fuel : nat) (s : string) : outcome (list value * string) :=
  match fuel with
  | O => Malformed
  | S n =>
      match parse_value n s with
      | Parsed (v, rest) =>
          match starts_with ","%char (skip_ws rest) with
          | Some rest' =>
              match parse_elements n rest' with
              | Parsed (vs, rest'') => Parsed (v :: vs, rest'')
              | other => other
              end
          | None =>
              match starts_with "]"%char (skip_ws rest) with
              | Some rest' => Parsed ([v], rest')
              | None => Malformed
              end
          end
      | Malformed => Malformed
      | Unsupported => Unsupported
      end
  end
with parse_members (fuel : nat) (s : string) : outcome (list (string * value) * string) :=
  match fuel with
  | O => Malformed
  | S n =>
      match starts_with dquote (skip_ws s) with
      | Some r =>
          match parse_chars r with
          | Parsed (k, rest) =>
              match starts_with ":"%char (skip_ws rest) with
              | Some rest' =>
                  match parse_value n rest' with
                  | Parsed (v, rest'') =>
                      match starts_with ","%char (skip_ws rest'') with
                      | Some rest3 =>
                          match parse_members n rest3 with
                          | Parsed (fs, rest4) => Parsed ((k, v) :: fs, rest4)
                          | other => other
                          end
                      | None =>
                          match starts_with "}"%char (skip_ws rest'') with
                          | Some rest3 => Parsed ([(k, v)], rest3)
                          | None => Malformed
                          end
                      end
                  | Malformed => Malformed
                  | Unsupported => Unsupported
                  end
              | None => Malformed
              end
          | Malformed => Malformed
          | Unsupported => Unsupported
          end
      | None => Malformed
      end
  end.

(** [JSON.parse]: the whole text must be one value. *)
Definition parse (s : string) : outcome value :=
  match parse_value (2 * String.length s + 2) s with
  | Parsed (v, rest) =>
      match skip_ws rest with
      | EmptyString => Parsed v
      | _ => Malformed
      end
  | Malformed => Malformed
  | Unsupported => Unsupported
  end.

(** What may follow a value in the text [stringify] writes. *)
Definition value_end (rest : string) : Prop :=
  match rest with
  | EmptyString => True
  | String c _ => c = ","%char \/ c = "]"%char \/ c = "}"%char
  end.

(** Values [JSON.stringify] writes in full: no [undefined] and no
    function anywhere inside. *)
Fixpoint serializable (v : value) : bool :=
  match v with
  | VUndefined | VFunction => false
  | VArr items => forallb serializable items
  | VObj fields => forallb (fun kv => serializable (snd kv)) fields
  | _ => true
  end.

(** A bound on the fuel [parse_value] needs for the text of a value. *)
Definition weights (l : list nat) : nat := fold_right (fun w acc => S (w + acc)) 0 l.

Fixpoint weight (v : value) : nat :=
  match v with
  | VArr items => S (weights (List.map weight items))
  | VObj fields => S (weights (List.map (fun kv => weight (snd kv)) fields))
  | _ => 1
  end.

(** The text of a value, [null] where [stringify] has none. *)
Definition print (v : value) : string := default "null" (stringify v).

Definition print_member (kv : string * value) : string :=
  quote (fst kv) +:+ ":" +:+ print (snd kv).

(** [v] is read back from its text, whatever follows the text. *)
Definition parses (v : value) : Prop :=
  forall fuel rest, weight v <= fuel -> value_end rest ->
    parse_value fuel (print v +:+ rest) = Parsed (v, rest).

End JSON.


(** ** Objects and the heap *)

(** The own enumerable properties of [d], in the order [Object.assign] and
    the spread syntax copy them. *)
Definition indexed {A : Type} (f : A -> value) (l : list A) : list (string * value) :=
  imap (fun i x => (string_of_nat i, f x)) l.

Definition obj_at (h : gmap positive (gmap string value)) (l : loc) : gmap string value :=
  default ∅ (h !! l).

Definition own_enumerable (h : gmap positive (gmap string value)) (d : dyn)
  : list (string * value) :=
  match d with
  | DRef l => map_to_list (obj_at h l)
  | DVal (VObj fields) => fields
  | DVal (VArr items) => indexed id items
  | DVal (VStr s) => indexed (fun c => VStr (String c "")) (chars s)
  | _ => []
  end.

(** Property writes in sequence: a later write to the same key wins. *)
Definition assign (target : gmap string value) (props : list (string * value))
  : gmap string value :=
  foldl (fun o kv => <[fst kv := snd kv]> o) target props.

(** The mapping an object-like result denotes. *)
Definition props_of (h : gmap positive (gmap string value)) (d : dyn) : gmap string value :=
  assign ∅ (own_enumerable h d).

(** [o[k]] on a plain object: own properties first, then what
    [Object.prototype] provides. *)
Definition prop_read (o : gmap string value) (k : string) : dyn :=
  match o !! k with
  | Some v => DVal v
  | None =>
      if bool_decide (k ∈ Object_prototype_methods) then DBuiltin k
      else if bool_decide (k = "__proto__") then DObjectPrototype
      else DVal VUndefined
  end.

(** ** The host and the mutable state *)

Record Host := {
  process_browser : bool;          (* process.browser *)
  NODE_ENV : option string         (* process.env.NODE_ENV *)
}.

(** [const isDev = process.env.NODE_ENV === 'development' || false] *)
Definition isDev (H : Host) : bool := bool_decide (NODE_ENV H = Some "development").

(** [this.status] *)
Inductive Status := StNoop | StAction | StMutation.

#[global] Instance Status_eq_dec : EqDecision Status.
Proof. solve_decision. Defined.

(** What the store writes to the console and to [window]. *)
Inductive event : Type :=
  | console_warn (msg : string)
  | console_log (msg : string) (args : list dyn)
  | console_error (msg : string)
  | console_groupCollapsed (label : string)
  | console_groupEnd
  | window_dispatchEvent (type : string) (detail : dyn).

(** Listeners registered with [on('state', ...)]: the store registers one
    kind, which writes the current state to [localStorage] under a key. *)
Inductive handler := PersistTo (key : string).

Record World := {
  heap : gmap positive (gmap string value);
  localStorage : gmap string string;
  trace : list event
}.

Record St := {
  status : Status;
  _state : loc;
  _handlers : list handler;
  world : World
}.

Definition with_heap (h : gmap positive (gmap string value)) (w : World) : World :=
  {| heap := h; localStorage := localStorage w; trace := trace w |}.
Definition with_localStorage (ls : gmap string string) (w : World) : World :=
  {| heap := heap w; localStorage := ls; trace := trace w |}.
Definition with_trace (t : list event) (w : World) : World :=
  {| heap := heap w; localStorage := localStorage w; trace := t |}.
Definition with_world (w : World) (s : St) : St :=
  {| status := status s; _state := _state s; _handlers := _handlers s; world := w |}.
Definition with_status (x : Status) (s : St) : St :=
  {| status := x; _state := _state s; _handlers := _handlers s; world := world s |}.
Definition with_state (l : loc) (s : St) : St :=
  {| status := status s; _state := l; _handlers := _handlers s; world := world s |}.
Definition with_handlers (hs : list handler) (s : St) : St :=
  {| status := status s; _state := _state s; _handlers := hs; world := world s |}.

(** The current contents of the state snapshot. *)
Definition state_of (s : St) : gmap string value := obj_at (heap (world s)) (_state s).

(** ** The monad of methods *)

Inductive exn := TypeError | SyntaxError | ReferenceError | RangeError.

(** A call returns, throws, or leaves the embedding: it parses a text the
    embedding does not decide (see [JSON.Unsupported]) or depends on what
    an opaque function does. *)
Inductive res (A : Type) : Type :=
  | Ok (a : A)
  | Throw (e : exn)
  | OutOfModel.
Arguments Ok {A} a.
Arguments Throw {A} e.
Arguments OutOfModel {A}.

Definition M (A : Type) : Type := St -> res A * St.

Definition ret {A} (a : A) : M A := fun s => (Ok a, s).
Definition throw {A} (e : exn) : M A := fun s => (Throw e, s).
Definition bind {A B} (m : M A) (k : A -> M B) : M B :=
  fun s =>
    match m s with
    | (Ok a, s') => k a s'
    | (Throw e, s') => (Throw e, s')
    | (OutOfModel, s') => (OutOfModel, s')
    end.
Definition gets {A} (f : St -> A) : M A := fun s => (Ok (f s), s).
Definition modify (f : St -> St) : M unit := fun s => (Ok tt, f s).

Declare Scope store_scope.
Delimit Scope store_scope with store.
Notation "x <- m ;; k" := (bind m (fun x => k))
  (at level 100, m at next level, right associativity) : store_scope.
Notation "m ;; k" := (bind m (fun _ => k))
  (at level 100, right associativity) : store_scope.
Open Scope store_scope.

Definition when (b : bool) (m : M unit) : M unit := if b then m else ret tt.

Definition emit (e : event) : M unit :=
  modify (fun s => with_world (with_trace (trace (world s) ++ [e]) (world s)) s).

Definition put_heap (h : gmap positive (gmap string value)) : M unit :=
  modify (fun s => with_world (with_heap h (world s)) s).

(** A new object with the given properties. *)
Definition alloc (o : gmap string value) : M loc :=
  h <- gets (fun s => heap (world s)) ;;
  let l := fresh (dom h) in
  put_heap (<[l := o]> h) ;;
  ret l.

(** [window.localStorage.setItem(key, text)] *)
Definition localStorage_setItem (key text : string) : M unit :=
  modify (fun s => with_world (with_localStorage (<[key := text]> (localStorage (world s))) (world s)) s).

(** [window] exists in the browser only; elsewhere the name is unbound. *)
Definition window (H : Host) : M unit :=
  if process_browser H then ret tt else throw ReferenceError.

(** ** Tables of user functions *)

(** A mutation receives the state and the payload, may update objects in
    place and returns a value or a reference. *)
Definition mutation : Type :=
  dyn -> value -> gmap positive (gmap string value) ->
  res dyn * gmap positive (gmap string value).

(** The store as an action or a getter sees it. *)
Record context := {
  ctx_get : option string -> list value -> M dyn;
  ctx_set : loc -> M unit;
  ctx_commit : string -> value -> M bool;
  ctx_dispatch : string -> value -> M bool
}.

(** The synchronous part of an action; what it returns is ignored. *)
Definition action : Type := context -> value -> M unit.

(** A getter is called with [this] bound to the store and reads it through
    [this.get]. *)
Definition getter : Type := (option string -> list value -> M dyn) -> list value -> M dyn.

(** A table of functions is an object: a name is looked up among its own
    properties and then along its prototype chain. *)
Record table (A : Type) := Table {
  own : gmap string A;
  inherited : gmap string A
}.
Arguments Table {A} own inherited.
Arguments own {A} t.
Arguments inherited {A} t.

(** [t[k]] when it is a function. *)
Definition js_get {A : Type} (t : table A) (k : string) : option A :=
  match own t !! k with
  | Some f => Some f
  | None => inherited t !! k
  end.

(** [ToString] of an object: [Object.prototype.toString] unless an own
    property hides it; own data under [toString] leaves no usable
    conversion, an own function is opaque. *)
Definition object_ToString (o : gmap string value) : res string :=
  match o !! "toString" with
  | None => Ok "[object Object]"
  | Some VFunction => OutOfModel
  | Some _ =>
      match o !! "valueOf" with
      | Some VFunction => OutOfModel
      | _ => Throw TypeError
      end
  end.

Fixpoint ToString (v : value) : res string :=
  match v with
  | VUndefined => Ok "undefined"
  | VNull => Ok "null"
  | VBool true => Ok "true"
  | VBool false => Ok "false"
  | VNum n => Ok (string_of_Z n)
  | VStr s => Ok s
  | VFunction => OutOfModel
  | VObj fields => object_ToString (assign ∅ fields)
  | VArr items =>
      let text :=
        (fix go (l : list value) : res (list string) :=
           match l with
           | [] => Ok []
           | x :: r =>
               match (match x with VUndefined | VNull => Ok "" | _ => ToString x end) with
               | Ok t =>
                   match go r with
                   | Ok ts => Ok (t :: ts)
                   | Throw e => Throw e
                   | OutOfModel => OutOfModel
                   end
               | Throw e => Throw e
               | OutOfModel => OutOfModel
               end
           end) items in
      match text with
      | Ok ts => Ok (join "," ts)
      | Throw e => Throw e
      | OutOfModel => OutOfModel
      end
  end.

(** [ToPropertyKey] of an argument. *)
Definition ToPropertyKey (h : gmap positive (gmap string value)) (d : dyn) : res string :=
  match d with
  | DVal v => ToString v
  | DRef l => object_ToString (obj_at h l)
  | DBuiltin _ => OutOfModel
  | DObjectPrototype => Ok "[object Object]"
  end.

(** [Object(a)] *)
Definition Object_ (a : dyn) : dyn :=
  match a with
  | DVal VUndefined | DVal VNull => DVal (VObj [])
  | _ => a
  end.

(** A method of [Object.prototype] reached through a table whose own
    properties are [t], called as a mutation is: with [this] the table
    and two arguments. *)
Definition Object_prototype_call (t : gmap string mutation) (name : string) : mutation :=
  fun a b h =>
    if bool_decide (name = "constructor") then (Ok (Object_ a), h)
    else if bool_decide (name = "toString") then (Ok (DVal (VStr "[object Object]")), h)
    else if bool_decide (name = "toLocaleString") then
      match t !! "toString" with
      | Some f => f (DVal VUndefined) VUndefined h
      | None => (Ok (DVal (VStr "[object Object]")), h)
      end
    else if bool_decide (name = "valueOf") then
      (Ok (DVal (VObj (List.map (fun kf => (fst kf, VFunction)) (map_to_list t)))), h)
    else if bool_decide (name = "hasOwnProperty")
            || bool_decide (name = "propertyIsEnumerable") then
      match ToPropertyKey h a with
      | Ok key => (Ok (DVal (VBool (bool_decide (is_Some (t !! key))))), h)
      | Throw e => (Throw e, h)
      | OutOfModel => (OutOfModel, h)
      end
    else if bool_decide (name = "isPrototypeOf") then (Ok (DVal (VBool false)), h)
    else if bool_decide (name = "__lookupGetter__")
            || bool_decide (name = "__lookupSetter__") then
      match ToPropertyKey h a with
      | Ok _ => (Ok (DVal VUndefined), h)
      | Throw e => (Throw e, h)
      | OutOfModel => (OutOfModel, h)
      end
    else (* __defineGetter__, __defineSetter__ *)
      match b with
      | VFunction => (OutOfModel, h)
      | _ => (Throw TypeError, h)
      end.

(** The same methods called as an action is: with the store and the
    payload.  The store converts to the key "[object Object]". *)
Definition Object_prototype_act (t : gmap string action) (name : string) : action :=
  fun _ b =>
    if bool_decide (name = "toLocaleString") then
      match t !! "toString" with
      | Some _ => fun s => (OutOfModel, s)
      | None => ret tt
      end
    else if bool_decide (name = "__defineGetter__")
            || bool_decide (name = "__defineSetter__") then
      match b with
      | VFunction => fun s => (OutOfModel, s)
      | _ => throw TypeError
      end
    else ret tt.

(** An object literal of functions used as a table. *)
Definition object_literal_mutations (t : gmap string mutation) : table mutation :=
  Table t (list_to_map
             (List.map (fun name => (name, Object_prototype_call t name))
                Object_prototype_methods)).

Definition object_literal_actions (t : gmap string action) : table action :=
  Table t (list_to_map
             (List.map (fun name => (name, Object_prototype_act t name))
                Object_prototype_methods)).

(** The store object: the fields the constructor assigns once.  The
    getter table is given by its own properties, which is what [get] asks
    for; it is taken not to redefine [hasOwnProperty]. *)
Record Store := {
  actions : table action;
  mutations : table mutation;
  getters : gmap string getter;
  storeKey : string
}.

(** The [params] object: [None] where it has no such own property. *)
Record Params := {
  p_state : option (gmap string value);
  p_actions : option (table action);
  p_mutations : option (table mutation);
  p_getters : option (gmap string getter);
  p_key : option string
}.

(** ** The reactive primitive *)

(** [JSON.stringify] of a heap object; an object always has a text.  Its
    properties are written in the order of the map; no reader of the text
    depends on the order. *)
Definition stringify_object (o : gmap string value) : string :=
  default "undefined" (JSON.stringify (VObj (map_to_list o))).

(** A state every field of which is serializable. *)
Definition serializable_state (o : gmap string value) : Prop :=
  forall k v, o !! k = Some v -> JSON.serializable v = true.

(** [JSON.parse(text)] as a call. *)
Definition JSON_parse (text : string) : M value :=
  fun s =>
    match JSON.parse text with
    | JSON.Parsed v => (Ok v, s)
    | JSON.Malformed => (Throw SyntaxError, s)
    | JSON.Unsupported => (OutOfModel, s)
    end.

(** The listener the store registers:
    [({ current }) => window.localStorage.setItem(key, JSON.stringify(current))] *)
Definition run_handler (hd : handler) (current : loc) : M unit :=
  match hd with
  | PersistTo key =>
      h <- gets (fun s => heap (world s)) ;;
      localStorage_setItem key (stringify_object (obj_at h current))
  end.

Fixpoint fire_state (hs : list handler) (current : loc) : M unit :=
  match hs with
  | [] => ret tt
  | hd :: rest => run_handler hd current ;; fire_state rest current
  end.

(** The reactive primitive the store extends is [Store] of
    [svelte/store.js], an external package that is not among the sources;
    its four operations follow the specification's description of it. *)
Module Base.

(** Modelled from the spec: the constructor of the reactive primitive,
    which starts from the given state or from the empty mapping. *)
Definition new (state : option (gmap string value)) (w : World) : loc * World :=
  let l := fresh (dom (heap w)) in
  (l, with_heap (<[l := default ∅ state]> (heap w)) w).

(** Modelled from the spec: [get] of the reactive primitive, which returns
    the current value snapshot. *)
Definition get : M loc := gets _state.

(** Modelled from the spec: [set] of the reactive primitive, which
    replaces the snapshot and synchronously notifies the registered
    observers. *)
Definition set (newState : loc) : M unit :=
  modify (with_state newState) ;;
  hs <- gets _handlers ;;
  fire_state hs newState.

(** Modelled from the spec: [on('state', handler)] of the reactive
    primitive, which registers an observer. *)
Definition on_state (hd : handler) : M unit :=
  modify (fun s => with_handlers (_handlers s ++ [hd]) s).

End Base.

(** ** The store of [src/store.js] *)

Section Methods.

Variable H : Host.

(** [set (newState)] *)
Definition set (newState : loc) : M unit :=
  st <- gets status ;;
  (if bool_decide (st <> StMutation)
   then when (isDev H)
          (emit (console_warn "Don't set state directly, you should use a mutation instead"))
   else ret tt) ;;
  Base.set newState ;;
  h <- gets (fun s => heap (world s)) ;;
  when (isDev H)
    (emit (console_log "stateChange:" [DVal (VObj (own_enumerable h (DRef newState)))])) ;;
  when (process_browser H) (emit (window_dispatchEvent "stateChange" (DRef newState))) ;;
  modify (with_status StNoop).

(** [constructor(params)]: the store object and its initial state, in
    the world [w]. *)
Definition constructor (params : Params) (w : World) : Store * St :=
  let '(l, w') :=
    Base.new (if process_browser H then None else p_state params) w in
  let this :=
    {| actions := default (object_literal_actions ∅) (p_actions params);
       mutations := default (object_literal_mutations ∅) (p_mutations params);
       getters := default ∅ (p_getters params);
       storeKey := default "_sapper_store_key_" (p_key params) |} in
  let s0 := {| status := StNoop; _state := l; _handlers := []; world := w' |} in
  let body : M unit :=
    if process_browser H then Base.on_state (PersistTo (storeKey this)) else ret tt in
  (this, snd (body s0)).

Variable this : Store.

(** [init (state = {})]: the object literal is built after its parts are
    evaluated, so a throwing [JSON.parse] leaves the heap as it was. *)
Definition init (state : dyn) : M unit :=
  let state := match state with DVal VUndefined => DVal (VObj []) | _ => state end in
  window H ;;
  item <- gets (fun s => localStorage (world s) !! storeKey this) ;;
  (* getItem(...) || {}: null and the empty string are falsy; the text of
     the object {} is "[object Object]" *)
  let json :=
    match item with
    | Some text => if bool_decide (text = "") then "[object Object]" else text
    | None => "[object Object]"
    end in
  modify (with_status StMutation) ;;
  parsed <- JSON_parse json ;;
  h <- gets (fun s => heap (world s)) ;;
  newState <- alloc (assign (assign ∅ (own_enumerable h state)) (own_enumerable h (DVal parsed))) ;;
  set newState.

(** [if (key)] for a key that is a string or absent. *)
Definition truthy_key (key : option string) : option string :=
  match key with
  | Some k => if bool_decide (k = "") then None else Some k
  | None => None
  end.

(** [get (key = null, ...args)]; [fuel] is the depth of calls left on
    the stack, a getter may call [this.get] again. *)
Fixpoint get (fuel : nat) (key : option string) (args : list value) : M dyn :=
  match fuel with
  | O => throw RangeError
  | S n =>
      match truthy_key key with
      | Some k =>
          match getters this !! k with
          | Some g => g (get n) args
          | None =>
              l <- Base.get ;;
              h <- gets (fun s => heap (world s)) ;;
              ret (prop_read (obj_at h l) k)
          end
      | None => l <- Base.get ;; ret (DRef l)
      end
  end.

Definition run_mutation (f : mutation) (a : dyn) (b : value) : M dyn :=
  fun s =>
    let '(r, h') := f a b (heap (world s)) in
    (r, with_world (with_heap h' (world s)) s).

(** [Object.assign(target, source)] on a heap object. *)
Definition Object_assign (target : loc) (source : dyn) : M loc :=
  h <- gets (fun s => heap (world s)) ;;
  put_heap (<[target := assign (obj_at h target) (own_enumerable h source)]> h) ;;
  ret target.

(** [commit(mutationKey, payload)] *)
Definition commit (mutationKey : string) (payload : value) : M bool :=
  match js_get (mutations this) mutationKey with
  | None =>
      emit (console_log
              ("Mutation " +:+ String dquote (mutationKey +:+ String dquote " doesn't exist")) []) ;;
      ret false
  | Some f =>
      modify (with_status StMutation) ;;
      when (isDev H) (emit (console_log ("MUTATION " +:+ mutationKey +:+ ":") [DVal payload])) ;;
      when (process_browser H)
        (emit (window_dispatchEvent "mutation" (DVal (VStr mutationKey)))) ;;
      cur <- gets _state ;;
      newState <- run_mutation f (DRef cur) payload ;;
      target <- gets _state ;;
      merged <- Object_assign target newState ;;
      h <- gets (fun s => heap (world s)) ;;
      fresh_state <- alloc (assign ∅ (own_enumerable h (DRef merged))) ;;
      set fresh_state ;;
      ret true
  end.

(** [dispatch(actionKey, payload)]; [fuel] as in [get], an action may
    dispatch another. *)
Fixpoint dispatch (fuel : nat) (actionKey : string) (payload : value) : M bool :=
  match fuel with
  | O => throw RangeError
  | S n =>
      match js_get (actions this) actionKey with
      | None =>
          emit (console_error
                  ("Action " +:+ String dquote (actionKey +:+ " doesn't exist."))) ;;
          ret false
      | Some f =>
          when (isDev H) (emit (console_groupCollapsed ("ACTION: " +:+ actionKey))) ;;
          modify (with_status StAction) ;;
          f {| ctx_get := get n; ctx_set := set; ctx_commit := commit; ctx_dispatch := dispatch n |}
            payload ;;
          when (isDev H) (emit console_groupEnd) ;;
          ret true
      end
  end.

End Methods.

(** ** The older variant, whose constructor loads the persisted snapshot *)

Module Legacy.
Section Methods.

Variable H : Host.

(** [constructor(params)]; this variant has no getters.  The parsed
    snapshot is a new object, held in the heap by its own properties. *)
Definition constructor (params : Params) (w : World) : res Store * St :=
  let '(l, w') :=
    Base.new (if process_browser H then None else p_state params) w in
  let key := default "_sapper_store_key_" (p_key params) in
  let this :=
    {| actions := default (object_literal_actions ∅) (p_actions params);
       mutations := default (object_literal_mutations ∅) (p_mutations params);
       getters := ∅;
       storeKey := key |} in
  let s0 := {| status := StNoop; _state := l; _handlers := []; world := w' |} in
  let body : M unit :=
    if process_browser H then
      json <- gets (fun s => localStorage (world s) !! key) ;;
      modify (with_status StMutation) ;;
      (* json && this.set(JSON.parse(json)) *)
      match json with
      | Some text =>
          if bool_decide (text = "") then ret tt
          else
            parsed <- JSON_parse text ;;
            h <- gets (fun s => heap (world s)) ;;
            newState <- alloc (props_of h (DVal parsed)) ;;
            set H newState
      | None => ret tt
      end ;;
      Base.on_state (PersistTo key)
    else ret tt in
  match body s0 with
  | (Ok _, s) => (Ok this, s)
  | (Throw e, s) => (Throw e, s)
  | (OutOfModel, s) => (OutOfModel, s)
  end.

(** [init (state = {})] *)
Definition init (state : dyn) : M unit :=
  let state := match state with DVal VUndefined => DVal (VObj []) | _ => state end in
  modify (with_status StMutation) ;;
  h <- gets (fun s => heap (world s)) ;;
  newState <- alloc (props_of h state) ;;
  set H newState.

Variable this : Store.

(** [get (key = null)] of the older variant:
    [key ? super.get()[key] : super.get()] *)
Definition get (key : option string) : M dyn :=
  match truthy_key key with
  | Some k =>
      l <- Base.get ;;
      h <- gets (fun s => heap (world s)) ;;
      ret (prop_read (obj_at h l) k)
  | None => l <- Base.get ;; ret (DRef l)
  end.

(** [commit(mutationKey, payload)] of the older variant: as in
    [src/store.js], without the [mutation] event. *)
Definition commit (mutationKey : string) (payload : value) : M bool :=
  match js_get (mutations this) mutationKey with
  | None =>
      emit (console_log
              ("Mutation " +:+ String dquote (mutationKey +:+ String dquote " doesn't exist")) []) ;;
      ret false
  | Some f =>
      modify (with_status StMutation) ;;
      when (isDev H) (emit (console_log ("MUTATION " +:+ mutationKey +:+ ":") [DVal payload])) ;;
      cur <- gets _state ;;
      newState <- run_mutation f (DRef cur) payload ;;
      target <- gets _state ;;
      merged <- Object_assign target newState ;;
      h <- gets (fun s => heap (world s)) ;;
      fresh_state <- alloc (assign ∅ (own_enumerable h (DRef merged))) ;;
      set H fresh_state ;;
      ret true
  end.

(** [dispatch(actionKey, payload)] of the older variant. *)
Fixpoint dispatch (fuel : nat) (actionKey : string) (payload : value) : M bool :=
  match fuel with
  | O => throw RangeError
  | S n =>
      match js_get (actions this) actionKey with
      | None =>
          emit (console_error
                  ("Action " +:+ String dquote (actionKey +:+ " doesn't exist."))) ;;
          ret false
      | Some f =>
          when (isDev H) (emit (console_groupCollapsed ("ACTION: " +:+ actionKey))) ;;
          modify (with_status StAction) ;;
          f {| ctx_get := fun key _ => get key; ctx_set := set H; ctx_commit := commit;
               ctx_dispatch := dispatch n |}
            payload ;;
          when (isDev H) (emit console_groupEnd) ;;
          ret true
      end
  end.

End Methods.
End Legacy.

(** ** Example stores *)

Module Examples.

Definition browser_dev : Host :=
  {| process_browser := true; NODE_ENV := Some "development" |}.

Definition node_production : Host :=
  {| process_browser := false; NODE_ENV := Some "production" |}.

Definition empty_world : World := {| heap := ∅; localStorage := ∅; trace := [] |}.

(** [SET (state, payload) { return { count: payload } }] *)
Definition SET : mutation :=
  fun _ payload h => (Ok (DVal (VObj [("count", payload)])), h).

(** [setCount (context, payload) { context.commit('SET', payload) }] *)
Definition setCount : action :=
  fun context payload => ctx_commit context "SET" payload ;; ret tt.

(** [answer () { return 42 }] *)
Definition answer : getter := fun _ _ => ret (DVal (VNum 42)).

(** [{ state: { count: 0 }, actions: { setCount }, mutations: { SET },
       getters: { answer, '': answer }, key: 'K' }] *)
Definition counter_params : Params :=
  {| p_state := Some {[ "count" := VNum 0 ]};
     p_actions := Some (object_literal_actions {[ "setCount" := setCount ]});
     p_mutations := Some (object_literal_mutations {[ "SET" := SET ]});
     p_getters := Some (<[ "" := answer ]> {[ "answer" := answer ]});
     p_key := Some "K" |}.

(** [{}] *)
Definition no_params : Params :=
  {| p_state := None; p_actions := None; p_mutations := None; p_getters := None;
     p_key := None |}.

(** [new Store(counter_params)] on the server and in the browser, and
    [new Store({})] on the server. *)
Definition server_counter : Store * St := constructor node_production counter_params empty_world.
Definition browser_counter : Store * St := constructor browser_dev counter_params empty_world.
Definition server_plain : Store * St := constructor node_production no_params empty_world.

(** A browser whose storage holds a text under ['K'] that is not JSON. *)
Definition broken_world : World :=
  {| heap := ∅; localStorage := {[ "K" := "{" ]}; trace := [] |}.

(** [new Store(counter_params)] in that browser. *)
Definition broken_counter : Store * St := constructor browser_dev counter_params broken_world.

(** A browser whose storage holds the text of [{ count: 7 }] under ['K'],
    and [new Store(counter_params)] in it. *)
Definition count_7_text : string :=
  "{" +:+ String dquote ("count" +:+ String dquote ":7}").

Definition persisted_world : World :=
  {| heap := ∅; localStorage := {[ "K" := count_7_text ]}; trace := [] |}.

Definition reloaded_counter : Store * St :=
  constructor browser_dev counter_params persisted_world.

(** The same store built by the older variant, which loads the text. *)
Definition legacy_reloaded : res Store * St :=
  Legacy.constructor browser_dev counter_params persisted_world.

(** [later (context, payload) { }]: an action that makes no store call
    before it returns, as one that only schedules its commit. *)
Definition later : action := fun _ _ => ret tt.

(** [{ state: { count: 0 }, actions: { later } }] and the store made of it
    in the browser. *)
Definition later_params : Params :=
  {| p_state := Some {[ "count" := VNum 0 ]};
     p_actions := Some (object_literal_actions {[ "later" := later ]});
     p_mutations := None; p_getters := None; p_key := None |}.

Definition later_store : Store * St := constructor browser_dev later_params empty_world.

End Examples.

(** ** The store of the README

    The example module of the README ([state.js], [mutations.js],
    [actions.js], [getters.js], [index.js]).  An array held in a state field
    is a value of that field: [push] and [splice] on [state.items] are
    updates of the field [items] of the state object. *)

Module Readme.

(** [{ items: ['I made this', 'Another thing'] }] *)
Definition state : gmap string value :=
  {[ "items" := VArr [VStr "I made this"; VStr "Another thing"] ]}.

(** [state.items.m(...); return state;] for an array method [m] that
    turns the array into [update items]: only an array has the method, and
    reading [items] of [undefined] or [null] throws as well. *)
Definition update_items (update : list value -> res (list value)) (st : dyn)
    (h : gmap positive (gmap string value))
  : res dyn * gmap positive (gmap string value) :=
  match st with
  | DRef l =>
      match obj_at h l !! "items" with
      | Some (VArr items) =>
          match update items with
          | Ok items' => (Ok (DRef l), <[l := <["items" := VArr items']> (obj_at h l)]> h)
          | Throw e => (Throw e, h)
          | OutOfModel => (OutOfModel, h)
          end
      | Some (VObj _) => (OutOfModel, h)
      | _ => (Throw TypeError, h)
      end
  | DVal (VObj _) => (OutOfModel, h)
  | _ => (Throw TypeError, h)
  end.

(** [ADD_ITEM (state, payload) { state.items.push(payload); return state; }] *)
Definition ADD_ITEM : mutation :=
  fun st payload h => update_items (fun items => Ok (items ++ [payload])%list) st h.

(** [payload.index] *)
Definition payload_index (payload : value) : res value :=
  match payload with
  | VUndefined | VNull => Throw TypeError
  | VObj fields => Ok (default VUndefined (assign ∅ fields !! "index"))
  | VFunction => OutOfModel
  | _ => Ok VUndefined
  end.

(** The integer [splice] makes of its first argument. *)
Definition ToInteger (v : value) : res Z :=
  match v with
  | VUndefined | VNull => Ok 0%Z
  | VBool b => Ok (if b then 1 else 0)%Z
  | VNum n => Ok n
  | _ => OutOfModel
  end.

(** [items.splice(start, 1)]: a negative [start] counts from the end, and
    the position is clamped to the array. *)
Definition splice_one (start : Z) (items : list value) : list value :=
  let len := Z.of_nat (length items) in
  let from := if (start <? 0)%Z then Z.max (len + start) 0 else Z.min start len in
  delete (Z.to_nat from) items.

(** [CLEAR_ITEM (state, payload) { state.items.splice(payload.index, 1);
       return state; }] *)
Definition CLEAR_ITEM : mutation :=
  fun st payload h =>
    update_items
      (fun items =>
         match payload_index payload with
         | Ok v =>
             match ToInteger v with
             | Ok start => Ok (splice_one start items)
             | Throw e => Throw e
             | OutOfModel => OutOfModel
             end
         | Throw e => Throw e
         | OutOfModel => OutOfModel
         end) st h.

(** [addItem (context, payload) { context.commit('ADD_ITEM', payload); }] *)
Definition addItem : action :=
  fun context payload => ctx_commit context "ADD_ITEM" payload ;; ret tt.

(** [clearItem (context, payload) { context.commit('CLEAR_ITEM', payload); }] *)
Definition clearItem : action :=
  fun context payload => ctx_commit context "CLEAR_ITEM" payload ;; ret tt.

(** [x.items] of what [this.get()] returned. *)
Definition items_of (d : dyn) : M dyn :=
  match d with
  | DVal VUndefined | DVal VNull => throw TypeError
  | DRef l => h <- gets (fun s => heap (world s)) ;; ret (prop_read (obj_at h l) "items")
  | DVal (VObj fields) => ret (prop_read (assign ∅ fields) "items")
  | _ => ret (DVal VUndefined)
  end.

(** [items[index]] for an index that is a number, a boolean or [null];
    other indices name properties the embedding does not list. *)
Definition element (items : dyn) (index : value) : M dyn :=
  let numeric (at_index : Z -> dyn) : M dyn :=
    match index with
    | VNum i => ret (at_index i)
    | VNull | VBool _ => ret (DVal VUndefined)
    | _ => fun s => (OutOfModel, s)
    end in
  let keyed (o : gmap string value) : M dyn :=
    match ToString index with
    | Ok key => ret (prop_read o key)
    | Throw e => throw e
    | OutOfModel => fun s => (OutOfModel, s)
    end in
  match items with
  | DVal VUndefined | DVal VNull => throw TypeError
  | DVal (VArr xs) =>
      numeric (fun i => if (i <? 0)%Z then DVal VUndefined
                        else DVal (default VUndefined (xs !! Z.to_nat i)))
  | DVal (VStr s) =>
      numeric (fun i => if (i <? 0)%Z then DVal VUndefined
                        else match chars s !! Z.to_nat i with
                             | Some c => DVal (VStr (String c ""))
                             | None => DVal VUndefined
                             end)
  | DVal (VObj fields) => keyed (assign ∅ fields)
  | DRef l => h <- gets (fun s => heap (world s)) ;; keyed (obj_at h l)
  | DObjectPrototype => fun s => (OutOfModel, s)
  | _ => numeric (fun _ => DVal VUndefined)
  end.

(** [item (index = 0) { const { items } = this.get(); return items[index]; }] *)
Definition item : getter :=
  fun this_get args =>
    let index := match args with
                 | [] | VUndefined :: _ => VNum 0
                 | v :: _ => v
                 end in
    snapshot <- this_get None [] ;;
    items <- items_of snapshot ;;
    element items index.

(** [x.length] *)
Definition length_of (d : dyn) : M dyn :=
  match d with
  | DVal (VArr items) => ret (DVal (VNum (Z.of_nat (length items))))
  | DVal (VStr s) => ret (DVal (VNum (Z.of_nat (String.length s))))
  | DVal VUndefined | DVal VNull => throw TypeError
  | DVal (VObj fields) => ret (prop_read (assign ∅ fields) "length")
  | DVal VFunction | DBuiltin _ => fun s => (OutOfModel, s)
  | DRef l => h <- gets (fun s => heap (world s)) ;; ret (prop_read (obj_at h l) "length")
  | _ => ret (DVal VUndefined)
  end.

(** [itemCount () { return this.get('items').length; }] *)
Definition itemCount : getter :=
  fun this_get _ => items <- this_get (Some "items") [] ;; length_of items.

(** The tables of [actions.js], [mutations.js] and [getters.js]. *)
Definition actions : gmap string action :=
  <[ "clearItem" := clearItem ]> {[ "addItem" := addItem ]}.
Definition mutations : gmap string mutation :=
  <[ "CLEAR_ITEM" := CLEAR_ITEM ]> {[ "ADD_ITEM" := ADD_ITEM ]}.
Definition getters : gmap string getter :=
  <[ "itemCount" := itemCount ]> {[ "item" := item ]}.

(** [{ actions, mutations, getters, state, key }] with
    [key = 'my-store-key']. *)
Definition params : Params :=
  {| p_state := Some state;
     p_actions := Some (object_literal_actions actions);
     p_mutations := Some (object_literal_mutations mutations);
     p_getters := Some getters;
     p_key := Some "my-store-key" |}.

(** [new Store(params)] in the browser and on the server. *)
Definition browser_store : Store * St :=
  constructor Examples.browser_dev params Examples.empty_world.
Definition server_store : Store * St :=
  constructor Examples.node_production params Examples.empty_world.

End Readme.

(** ** What the storage keeps of a state *)




(** Whether an event goes to [window]. *)
Definition is_window_event (e : event) : bool :=
  match e with
  | window_dispatchEvent _ _ => true
  | _ => false
  end.

(** Whether an event is a [console.warn]. *)
Definition is_warning (e : event) : bool :=
  match e with
  | console_warn _ => true
  | _ => false
  end.

(** Two states of a store that differ at most in the console and window
    events written so far. *)
Definition same_but_trace (s1 s2 : St) : Prop :=
  status s1 = status s2 /\ _state s1 = _state s2 /\ _handlers s1 = _handlers s2 /\
  heap (world s1) = heap (world s2) /\ localStorage (world s1) = localStorage (world s2).

(** ** Closed forms of the effects of the methods *)

(** What the registered listeners leave in [localStorage]. *)
Definition persist_all (hs : list handler) (text : string) (ls : gmap string string)
  : gmap string string :=
  foldl (fun acc hd => match hd with PersistTo key => <[key := text]> acc end) ls hs.

(** The events one [set] call appends. *)
Definition set_events (H : Host) (st : Status) (h : gmap positive (gmap string value))
    (newState : loc) : list event :=
  (if bool_decide (st <> StMutation) && isDev H
   then [console_warn "Don't set state directly, you should use a mutation instead"]
   else []) ++
  (if isDev H
   then [console_log "stateChange:" [DVal (VObj (own_enumerable h (DRef newState)))]]
   else []) ++
  (if process_browser H then [window_dispatchEvent "stateChange" (DRef newState)] else []).

(** The events [commit] appends before it writes. *)
Definition commit_events (H : Host) (mutationKey : string) (payload : value) : list event :=
  (if isDev H then [console_log ("MUTATION " +:+ mutationKey +:+ ":") [DVal payload]] else []) ++
  (if process_browser H then [window_dispatchEvent "mutation" (DVal (VStr mutationKey))] else []).

(** The text [init] hands to [JSON.parse]. *)
Definition init_text (this : Store) (s : St) : string :=
  match localStorage (world s) !! storeKey this with
  | Some text => if bool_decide (text = "") then "[object Object]" else text
  | None => "[object Object]"
  end.

Definition init_arg (state : dyn) : dyn :=
  match state with DVal VUndefined => DVal (VObj []) | _ => state end.

(** The state [init] reaches once the persisted text parsed to [v]. *)
Definition init_done (H : Host) (state : dyn) (v : value) (s : St) : St :=
  let h := heap (world s) in
  let merged := props_of h (DVal v) ∪ props_of h (init_arg state) in
  let l := fresh (dom h) in
  let h' := <[l := merged]> h in
  {| status := StNoop;
     _state := l;
     _handlers := _handlers s;
     world :=
       {| heap := h';
          localStorage :=
            persist_all (_handlers s) (stringify_object merged) (localStorage (world s));
          trace := trace (world s) ++ set_events H StMutation h' l |} |}.

(** The state [commit] stops in when the mutation does not return. *)
Definition commit_stopped (H : Host) (mutationKey : string) (payload : value) (s : St)
    (h1 : gmap positive (gmap string value)) : St :=
  {| status := StMutation;
     _state := _state s;
     _handlers := _handlers s;
     world :=
       {| heap := h1;
          localStorage := localStorage (world s);
          trace := trace (world s) ++ commit_events H mutationKey payload |} |}.

(** The [this] an action receives from [dispatch], in [src/store.js] and
    in the older variant. *)
Definition store_context (H : Host) (this : Store) (n : nat) : context :=
  {| ctx_get := get this n; ctx_set := set H; ctx_commit := commit H this;
     ctx_dispatch := dispatch H this n |}.

Definition legacy_context (H : Host) (this : Store) (n : nat) : context :=
  {| ctx_get := fun key _ => Legacy.get key; ctx_set := set H;
     ctx_commit := Legacy.commit H this; ctx_dispatch := Legacy.dispatch H this n |}.

(** The state in which [dispatch] calls the action, and the state it
    returns in once the action returned in [s]. *)
Definition dispatch_entered (H : Host) (actionKey : string) (s : St) : St :=
  {| status := StAction;
     _state := _state s;
     _handlers := _handlers s;
     world :=
       with_trace
         (trace (world s) ++
          if isDev H then [console_groupCollapsed ("ACTION: " +:+ actionKey)] else [])
         (world s) |}.

Definition dispatch_left (H : Host) (s : St) : St :=
  with_world
    (with_trace (trace (world s) ++ if isDev H then [console_groupEnd] else []) (world s)) s.

(** * Properties *)

#[global] Arguments own_enumerable : simpl never.
#[global] Arguments props_of : simpl never.
#[global] Arguments stringify_object : simpl never.

(** ** Shallow merge *)

Lemma assign_union (props : list (string * value)) (o : gmap string value) :
  assign o props = assign ∅ props ∪ o.
Proof.
  revert o. induction props as [|[k v] props IH]; intros o.
  - unfold assign; simpl. by rewrite (left_id_L ∅ (∪)).
  - unfold assign in *; simpl. rewrite IH, (IH (<[k:=v]> ∅)).
    rewrite <- (assoc_L (∪)). f_equal.
    by rewrite <- insert_union_l, (left_id_L ∅ (∪)).
Qed.

Lemma assign_NoDup (props : list (string * value)) (o : gmap string value) :
  NoDup (props.*1) -> assign o props = list_to_map props ∪ o.
Proof.
  revert o. induction props as [|[k v] props IH]; intros o Hnd.
  - unfold assign; simpl. by rewrite (left_id_L ∅ (∪)).
  - apply NoDup_cons in Hnd as [Hk Hnd].
    unfold assign in *; simpl. rewrite (IH _ Hnd).
    rewrite <- insert_union_l.
    symmetry. apply insert_union_r. by apply not_elem_of_list_to_map_1.
Qed.

Lemma assign_map_to_list (m : gmap string value) : assign ∅ (map_to_list m) = m.
Proof.
  rewrite assign_NoDup by apply NoDup_fst_map_to_list.
  by rewrite list_to_map_to_list, (right_id_L ∅ (∪)).
Qed.

Lemma props_of_ref (h : gmap positive (gmap string value)) (l : loc) :
  props_of h (DRef l) = obj_at h l.
Proof. apply assign_map_to_list. Qed.

(** A merged mapping, key by key. *)
Lemma lookup_merge (p prev : gmap string value) (x : string) :
  (is_Some (p !! x) -> (p ∪ prev) !! x = p !! x) /\
  (p !! x = None -> (p ∪ prev) !! x = prev !! x).
Proof.
  split.
  - intros [v Hv]. rewrite Hv. by apply lookup_union_Some_l.
  - intros Hn. by apply lookup_union_r.
Qed.

(** ** The guarded write *)

Lemma fire_state_spec (hs : list handler) (current : loc) (s : St) :
  fire_state hs current s =
  (Ok tt,
   with_world
     (with_localStorage
        (persist_all hs (stringify_object (obj_at (heap (world s)) current))
           (localStorage (world s)))
        (world s)) s).
Proof.
  revert s. induction hs as [|[key] hs IH]; intros [st l hd [h ls tr]].
  - reflexivity.
  - simpl. unfold bind at 1. simpl. rewrite IH. reflexivity.
Qed.

Lemma set_spec (H : Host) (newState : loc) (s : St) :
  set H newState s =
  (Ok tt,
   {| status := StNoop;
      _state := newState;
      _handlers := _handlers s;
      world :=
        {| heap := heap (world s);
           localStorage :=
             persist_all (_handlers s)
               (stringify_object (obj_at (heap (world s)) newState))
               (localStorage (world s));
           trace := trace (world s) ++ set_events H (status s) (heap (world s)) newState |} |}).
Proof.
  destruct s as [st l hd [h ls tr]].
  unfold set, set_events, Base.set, bind, gets, when, emit, modify. simpl.
  destruct (bool_decide (st <> StMutation)), (isDev H), (process_browser H);
    simpl; rewrite fire_state_spec; simpl;
    unfold with_world, with_trace, with_status, with_localStorage; simpl;
    rewrite ?app_nil_r, <- ?app_assoc; reflexivity.
Qed.

(** ** Commit *)

(** The outcome of committing a mutation that returns [d] and leaves the
    heap [h1]: the previous state object receives the properties of [d],
    a new object receives a copy of the result and becomes the state. *)
Lemma commit_spec (H : Host) (this : Store) (k : string) (payload : value) (s : St)
    (f : mutation) (d : dyn) (h1 : gmap positive (gmap string value)) :
  js_get (mutations this) k = Some f ->
  f (DRef (_state s)) payload (heap (world s)) = (Ok d, h1) ->
  let merged := props_of h1 d ∪ obj_at h1 (_state s) in
  let h2 := <[_state s := merged]> h1 in
  let l := fresh (dom h2) in
  let h3 := <[l := merged]> h2 in
  commit H this k payload s =
  (Ok true,
   {| status := StNoop;
      _state := l;
      _handlers := _handlers s;
      world :=
        {| heap := h3;
           localStorage :=
             persist_all (_handlers s) (stringify_object merged) (localStorage (world s));
           trace := trace (world s) ++ commit_events H k payload
                      ++ set_events H StMutation h3 l |} |}).
Proof.
  intros Hget Hf merged h2 l h3.
  assert (Hm : assign (obj_at h1 (_state s)) (own_enumerable h1 d) = merged)
    by apply assign_union.
  assert (Hcopy : assign ∅ (own_enumerable h2 (DRef (_state s))) = merged).
  { change (props_of h2 (DRef (_state s)) = merged). rewrite props_of_ref.
    unfold obj_at, h2. by rewrite lookup_insert_eq. }
  assert (Hat : obj_at h3 l = merged).
  { unfold obj_at, h3. by rewrite lookup_insert_eq. }
  destruct s as [st cur hd [h ls tr]]. simpl in *.
  unfold commit. rewrite Hget.
  unfold bind, modify, gets, when, emit, ret, run_mutation, Object_assign, alloc, put_heap,
    commit_events. simpl.
  destruct (isDev H) eqn:Hdev, (process_browser H) eqn:Hbr; simpl; rewrite Hf; simpl;
    rewrite Hm; fold h2; rewrite Hcopy; fold l; fold h3; rewrite set_spec; simpl;
    rewrite Hat; unfold set_events; rewrite Hdev, Hbr; simpl;
    rewrite <- ?app_assoc; simpl; reflexivity.
Qed.

(** ** Init *)

Lemma init_spec (H : Host) (this : Store) (state : dyn) (s : St) :
  init H this state s =
  if process_browser H then
    match JSON.parse (init_text this s) with
    | JSON.Parsed v => (Ok tt, init_done H state v s)
    | JSON.Malformed => (Throw SyntaxError, with_status StMutation s)
    | JSON.Unsupported => (OutOfModel, with_status StMutation s)
    end
  else (Throw ReferenceError, s).
Proof.
  destruct s as [st cur hd [h ls tr]].
  unfold init, window, init_text. simpl.
  destruct (process_browser H) eqn:Hbr; [|reflexivity].
  unfold bind at 1. simpl. unfold bind at 1. simpl.
  set (json := match ls !! storeKey this with
               | Some text => if bool_decide (text = "") then "[object Object]" else text
               | None => "[object Object]" end).
  unfold bind at 1. simpl. unfold bind at 1. unfold JSON_parse.
  destruct (JSON.parse json) as [v| |]; try reflexivity.
  unfold bind, gets, alloc, put_heap, modify, ret. simpl.
  rewrite set_spec. simpl. unfold init_done. simpl.
  fold (init_arg state).
  assert (Hm : assign (assign ∅ (own_enumerable h (init_arg state))) (own_enumerable h (DVal v))
               = props_of h (DVal v) ∪ props_of h (init_arg state))
    by apply assign_union.
  rewrite Hm. unfold obj_at. rewrite lookup_insert_eq. reflexivity.
Qed.

(** ** Unknown names *)

(** A name the lookup does not resolve to a function: [commit] reports
    it, returns [false] and changes nothing else. *)
Lemma commit_unresolved (H : Host) (this : Store) (k : string) (payload : value) (s : St) :
  js_get (mutations this) k = None ->
  exists msg,
    commit H this k payload s =
    (Ok false, with_world (with_trace (trace (world s) ++ [console_log msg []]) (world s)) s).
Proof.
  intros Hget. unfold commit. rewrite Hget. eexists. reflexivity.
Qed.

Lemma dispatch_unresolved (H : Host) (this : Store) (n : nat) (k : string) (payload : value)
    (s : St) :
  js_get (actions this) k = None ->
  exists msg,
    dispatch H this (S n) k payload s =
    (Ok false, with_world (with_trace (trace (world s) ++ [console_error msg]) (world s)) s).
Proof.
  intros Hget. simpl. rewrite Hget. eexists. reflexivity.
Qed.

(** ** [JSON.parse] after [JSON.stringify] *)

Module JSON_facts.
Import JSON.

#[local] Arguments String.append !_ _ / : simpl nomatch.

Lemma parse_chars_esc (e c : ascii) (X : string) :
  In (e, c) [(dquote, dquote); (backslash, backslash); ("b", "008"); ("t", "009");
             ("n", "010"); ("f", "012"); ("r", "013")]%char ->
  parse_chars (String backslash (String e X)) =
  match parse_chars X with
  | Parsed (t, rest) => Parsed (String c t, rest)
  | other => other
  end.
Proof.
  intros Hin. simpl in Hin.
  repeat (destruct Hin as [[= <- <-]|Hin]; [reflexivity|]). destruct Hin.
Qed.

Lemma parse_chars_plain (c : ascii) (X : string) :
  Ascii.eqb c dquote = false -> Ascii.eqb c backslash = false ->
  (N_of_ascii c <? 32)%N = false ->
  parse_chars (String c X) =
  match parse_chars X with
  | Parsed (t, rest) => Parsed (String c t, rest)
  | other => other
  end.
Proof.
  intros H1 H2 H3.
  change (parse_chars (String c X)) with
    (if Ascii.eqb c dquote then Parsed ("", X)
     else if Ascii.eqb c backslash then
       match X with
       | String e r' => parse_chars (String backslash (String e r'))
       | EmptyString => Malformed
       end
     else if (N_of_ascii c <? 32)%N then Malformed
     else match parse_chars X with
          | Parsed (t, rest) => Parsed (String c t, rest)
          | other => other
          end).
  rewrite H1, H2, H3. reflexivity.
Qed.

Lemma parse_chars_u00 (a b : ascii) (x y : N) (X : string) :
  hex_value a = Some x -> hex_value b = Some y ->
  parse_chars (String backslash (String "u" (String "0" (String "0" (String a (String b X)))))) =
  match parse_chars X with
  | Parsed (t, rest) => Parsed (String (ascii_of_N (16 * x + y)) t, rest)
  | other => other
  end.
Proof.
  intros Ha Hb.
  change (parse_chars
            (String backslash (String "u" (String "0" (String "0" (String a (String b X)))))))
    with
    (match hex_value a, hex_value b with
     | Some c3, Some d =>
         match parse_chars X with
         | Parsed (t, rest') => Parsed (String (ascii_of_N (16 * c3 + d)) t, rest')
         | other => other
         end
     | _, _ => Malformed
     end).
  rewrite Ha, Hb. reflexivity.
Qed.

Lemma parse_chars_escape_char (c : ascii) (X s rest : string) :
  parse_chars X = Parsed (s, rest) ->
  parse_chars (escape_char c +:+ X) = Parsed (String c s, rest).
Proof.
  intros HX.
  destruct c as [[|] [|] [|] [|] [|] [|] [|] [|]];
    match goal with
    | |- context [escape_char ?c] =>
        let e := eval vm_compute in (escape_char c) in change (escape_char c) with e
    end;
    simpl String.append;
    first
      [ erewrite parse_chars_esc
          by (simpl; repeat (first [left; reflexivity | right]))
      | erewrite parse_chars_u00 by (vm_compute; reflexivity)
      | rewrite parse_chars_plain by (vm_compute; reflexivity) ];
    rewrite HX; reflexivity.
Qed.

Lemma append_assoc (a b c : string) : (a +:+ b) +:+ c = a +:+ (b +:+ c).
Proof. induction a as [|x a IH]; simpl; [reflexivity|by rewrite IH]. Qed.

Lemma parse_chars_escape (s rest : string) :
  parse_chars (escape s +:+ String dquote rest) = Parsed (s, rest).
Proof.
  induction s as [|c s IH]; [reflexivity|].
  change (escape (String c s)) with (escape_char c +:+ escape s).
  rewrite append_assoc. by apply parse_chars_escape_char.
Qed.

Lemma scan_uint_print (d : uint) (rest : string) :
  value_end rest -> scan_uint (NilEmpty.string_of_uint d +:+ rest) = (d, rest).
Proof.
  intros Hend. induction d; simpl; try (rewrite IHd; reflexivity).
  destruct rest as [|c r]; [reflexivity|].
  destruct Hend as [->|[->| ->]]; reflexivity.
Qed.

Lemma to_uint_no_leading_zero (p : positive) (u : uint) : Pos.to_uint p <> D0 u.
Proof.
  intros E.
  assert (Hn : unorm (Pos.to_uint p) = Pos.to_uint p).
  { rewrite <- (Unsigned.to_of (Pos.to_uint p)), Unsigned.of_to. reflexivity. }
  rewrite E, unorm_D0 in Hn.
  destruct (nzhead u) eqn:Hz;
    [ unfold unorm in Hn; rewrite Hz in Hn; injection Hn as <-;
      by apply (Unsigned.to_uint_nonzero p)
    | rewrite unorm_nzhead in Hn by (rewrite Hz; discriminate);
      by apply (nzhead_nonzero u u) .. ].
Qed.

Lemma starts_fraction_end (rest : string) : value_end rest -> starts_fraction rest = false.
Proof.
  destruct rest as [|c r]; [reflexivity|]. intros [->|[->| ->]]; reflexivity.
Qed.

Lemma parse_nat_print (p : positive) (rest : string) :
  value_end rest ->
  parse_nat (NilEmpty.string_of_uint (Pos.to_uint p) +:+ rest) = Parsed (Pos.to_uint p, rest).
Proof.
  intros Hend. unfold parse_nat. rewrite (scan_uint_print _ _ Hend).
  pose proof (Unsigned.to_uint_nonnil p) as Hnil.
  pose proof (to_uint_no_leading_zero p) as Hz.
  rewrite (starts_fraction_end _ Hend).
  destruct (Pos.to_uint p) as [|u|u|u|u|u|u|u|u|u|u]; try reflexivity.
  - by destruct Hnil.
  - by destruct (Hz u).
Qed.

Lemma string_of_pos_digits (p : positive) :
  NilZero.string_of_uint (Pos.to_uint p) = NilEmpty.string_of_uint (Pos.to_uint p) /\
  exists c r, NilEmpty.string_of_uint (Pos.to_uint p) = String c r /\
              In c ["1"; "2"; "3"; "4"; "5"; "6"; "7"; "8"; "9"]%char.
Proof.
  pose proof (Unsigned.to_uint_nonnil p) as Hnil.
  pose proof (to_uint_no_leading_zero p) as Hz.
  destruct (Pos.to_uint p) as [|u|u|u|u|u|u|u|u|u|u]; simpl.
  - by destruct Hnil.
  - by destruct (Hz u).
  - split; [reflexivity|]. do 2 eexists. split; [reflexivity|]. tauto.
  - split; [reflexivity|]. do 2 eexists. split; [reflexivity|]. tauto.
  - split; [reflexivity|]. do 2 eexists. split; [reflexivity|]. tauto.
  - split; [reflexivity|]. do 2 eexists. split; [reflexivity|]. tauto.
  - split; [reflexivity|]. do 2 eexists. split; [reflexivity|]. tauto.
  - split; [reflexivity|]. do 2 eexists. split; [reflexivity|]. tauto.
  - split; [reflexivity|]. do 2 eexists. split; [reflexivity|]. tauto.
  - split; [reflexivity|]. do 2 eexists. split; [reflexivity|]. tauto.
  - split; [reflexivity|]. do 2 eexists. split; [reflexivity|]. tauto.
Qed.

Lemma parse_number_print (z : Z) (rest : string) :
  value_end rest -> parse_number (string_of_Z z +:+ rest) = Parsed (VNum z, rest).
Proof.
  intros Hend. unfold string_of_Z. destruct z as [|p|p]; simpl Z.to_int.
  - simpl. unfold parse_number, parse_nat. simpl.
    replace (scan_uint rest) with (Nil, rest)
      by (symmetry; apply (scan_uint_print Nil rest Hend)).
    by rewrite (starts_fraction_end _ Hend).
  - destruct (string_of_pos_digits p) as (Hs & c & r & Hc & Hin).
    unfold NilZero.string_of_int. rewrite Hs.
    unfold parse_number.
    assert (Hm : starts_with "-"%char (NilEmpty.string_of_uint (Pos.to_uint p) +:+ rest) = None).
    { rewrite Hc. simpl in Hin.
      repeat (destruct Hin as [<-|Hin]; [reflexivity|]). destruct Hin. }
    rewrite Hm, (parse_nat_print _ _ Hend).
    change (Pos (Pos.to_uint p)) with (Z.to_int (Z.pos p)). by rewrite DecimalZ.of_to.
  - destruct (string_of_pos_digits p) as (Hs & _).
    unfold NilZero.string_of_int. rewrite Hs.
    unfold parse_number. simpl String.append. simpl starts_with. cbv beta iota.
    rewrite (parse_nat_print _ _ Hend).
    change (Neg (Pos.to_uint p)) with (Z.to_int (Z.neg p)). by rewrite DecimalZ.of_to.
Qed.

Lemma string_of_Z_first (z : Z) :
  exists c r, string_of_Z z = String c r /\
    In c ["0"; "1"; "2"; "3"; "4"; "5"; "6"; "7"; "8"; "9"; "-"]%char.
Proof.
  unfold string_of_Z. destruct z as [|p|p]; simpl Z.to_int.
  - do 2 eexists. split; [reflexivity|]. simpl. tauto.
  - destruct (string_of_pos_digits p) as (Hs & c & r & Hc & Hin).
    exists c, r. unfold NilZero.string_of_int. rewrite Hs. split; [exact Hc|].
    simpl in *. tauto.
  - do 2 eexists. split; [reflexivity|]. simpl. tauto.
Qed.

Lemma parse_value_number (n : nat) (c : ascii) (r : string) :
  In c ["0"; "1"; "2"; "3"; "4"; "5"; "6"; "7"; "8"; "9"; "-"]%char ->
  parse_value (S n) (String c r) = parse_number (String c r).
Proof.
  intros Hin. simpl in Hin.
  repeat (destruct Hin as [<-|Hin]; [reflexivity|]). destruct Hin.
Qed.

Lemma value_nested_ind (P : value -> Prop) :
  P VUndefined -> P VNull -> (forall b, P (VBool b)) -> (forall n, P (VNum n)) ->
  (forall s, P (VStr s)) ->
  (forall items, Forall P items -> P (VArr items)) ->
  (forall fields, Forall (fun kv => P (snd kv)) fields -> P (VObj fields)) ->
  P VFunction ->
  forall v, P v.
Proof.
  intros Hu Hn Hb Hz Hs Ha Ho Hf.
  fix IH 1. intros [| |b|n|s|items|fields|].
  - exact Hu.
  - exact Hn.
  - apply Hb.
  - apply Hz.
  - apply Hs.
  - apply Ha.
    exact ((fix go (l : list value) : Forall P l :=
              match l with
              | [] => @List.Forall_nil _ P
              | x :: r => @List.Forall_cons _ P x r (IH x) (go r)
              end) items).
  - apply Ho.
    exact ((fix go (l : list (string * value)) : Forall (fun kv => P (snd kv)) l :=
              match l with
              | [] => @List.Forall_nil _ _
              | kv :: r => @List.Forall_cons _ _ kv r (IH (snd kv)) (go r)
              end) fields).
  - exact Hf.
Qed.

Lemma serializable_stringify (v : value) :
  serializable v = true -> stringify v = Some (print v).
Proof.
  unfold print. destruct v as [| |[|]| | | | |]; simpl; intros Hs;
    try discriminate; reflexivity.
Qed.

Lemma print_arr (items : list value) :
  print (VArr items) = "[" +:+ join "," (List.map print items) +:+ "]".
Proof. reflexivity. Qed.

Lemma print_obj (fields : list (string * value)) :
  forallb (fun kv => serializable (snd kv)) fields = true ->
  print (VObj fields) = "{" +:+ join "," (List.map print_member fields) +:+ "}".
Proof.
  intros Hs. unfold print. simpl. do 3 f_equal.
  induction fields as [|[k x] fields IH]; [reflexivity|].
  simpl in Hs. apply andb_true_iff in Hs as [Hx Hs].
  simpl. rewrite (serializable_stringify x Hx), (IH Hs). reflexivity.
Qed.

Lemma print_first (v : value) :
  serializable v = true ->
  exists c r, print v = String c r /\ is_ws c = false /\ Ascii.eqb c "]"%char = false.
Proof.
  destruct v as [| |[|]|n|s|items|fields|]; simpl; intros Hs; try discriminate.
  - do 2 eexists. split; [reflexivity|]. split; reflexivity.
  - do 2 eexists. split; [reflexivity|]. split; reflexivity.
  - do 2 eexists. split; [reflexivity|]. split; reflexivity.
  - destruct (string_of_Z_first n) as (c & r & Hc & Hin).
    exists c, r. split; [exact Hc|]. simpl in Hin.
    repeat (destruct Hin as [<-|Hin]; [split; reflexivity|]). destruct Hin.
  - do 2 eexists. split; [reflexivity|]. split; reflexivity.
  - do 2 eexists. split; [reflexivity|]. split; reflexivity.
  - do 2 eexists. split; [reflexivity|]. split; reflexivity.
Qed.

Lemma skip_ws_cons (c : ascii) (r : string) :
  is_ws c = false -> skip_ws (String c r) = String c r.
Proof. intros Hc. simpl. by rewrite Hc. Qed.

Lemma parse_elements_unfold (n : nat) (s : string) :
  parse_elements (S n) s =
  match parse_value n s with
  | Parsed (v, rest) =>
      match starts_with ","%char (skip_ws rest) with
      | Some rest' =>
          match parse_elements n rest' with
          | Parsed (vs, rest'') => Parsed (v :: vs, rest'')
          | other => other
          end
      | None =>
          match starts_with "]"%char (skip_ws rest) with
          | Some rest' => Parsed ([v], rest')
          | None => Malformed
          end
      end
  | Malformed => Malformed
  | Unsupported => Unsupported
  end.
Proof. reflexivity. Qed.

Lemma parse_members_unfold (n : nat) (s : string) :
  parse_members (S n) s =
  match starts_with dquote (skip_ws s) with
  | Some r =>
      match parse_chars r with
      | Parsed (k, rest) =>
          match starts_with ":"%char (skip_ws rest) with
          | Some rest' =>
              match parse_value n rest' with
              | Parsed (v, rest'') =>
                  match starts_with ","%char (skip_ws rest'') with
                  | Some rest3 =>
                      match parse_members n rest3 with
                      | Parsed (fs, rest4) => Parsed ((k, v) :: fs, rest4)
                      | other => other
                      end
                  | None =>
                      match starts_with "}"%char (skip_ws rest'') with
                      | Some rest3 => Parsed ([(k, v)], rest3)
                      | None => Malformed
                      end
                  end
              | Malformed => Malformed
              | Unsupported => Unsupported
              end
          | None => Malformed
          end
      | Malformed => Malformed
      | Unsupported => Unsupported
      end
  | None => Malformed
  end.
Proof. reflexivity. Qed.

Lemma parse_value_array (n : nat) (r : string) :
  parse_value (S n) (String "["%char r) =
  match starts_with "]"%char (skip_ws r) with
  | Some rest => Parsed (VArr [], rest)
  | None =>
      match parse_elements n r with
      | Parsed (vs, rest) => Parsed (VArr vs, rest)
      | Malformed => Malformed
      | Unsupported => Unsupported
      end
  end.
Proof. reflexivity. Qed.

Lemma parse_value_object (n : nat) (r : string) :
  parse_value (S n) (String "{"%char r) =
  match starts_with "}"%char (skip_ws r) with
  | Some rest => Parsed (VObj [], rest)
  | None =>
      match parse_members n r with
      | Parsed (fs, rest) => Parsed (VObj fs, rest)
      | Malformed => Malformed
      | Unsupported => Unsupported
      end
  end.
Proof. reflexivity. Qed.

Lemma parse_value_string (n : nat) (r : string) :
  parse_value (S n) (String dquote r) =
  match parse_chars r with
  | Parsed (t, rest) => Parsed (VStr t, rest)
  | Malformed => Malformed
  | Unsupported => Unsupported
  end.
Proof. reflexivity. Qed.

Lemma sep_comma (r : string) : starts_with ","%char (skip_ws (String ","%char r)) = Some r.
Proof. reflexivity. Qed.

Lemma sep_bracket (r : string) :
  starts_with ","%char (skip_ws (String "]"%char r)) = None /\
  starts_with "]"%char (skip_ws (String "]"%char r)) = Some r.
Proof. split; reflexivity. Qed.

Lemma sep_brace (r : string) :
  starts_with ","%char (skip_ws (String "}"%char r)) = None /\
  starts_with "}"%char (skip_ws (String "}"%char r)) = Some r.
Proof. split; reflexivity. Qed.

Lemma sep_colon (r : string) : starts_with ":"%char (skip_ws (String ":"%char r)) = Some r.
Proof. reflexivity. Qed.

Lemma sep_quote (r : string) : starts_with dquote (skip_ws (String dquote r)) = Some r.
Proof. reflexivity. Qed.

Lemma join_cons2 (sep x y : string) (l : list string) :
  join sep (x :: y :: l) = x +:+ sep +:+ join sep (y :: l).
Proof. reflexivity. Qed.

Lemma parse_elements_print (items : list value) :
  items <> [] ->
  Forall (fun x => serializable x = true -> parses x) items ->
  forallb serializable items = true ->
  forall fuel rest, weights (List.map weight items) <= fuel ->
    parse_elements fuel (join "," (List.map print items) +:+ String "]"%char rest)
    = Parsed (items, rest).
Proof.
  induction items as [|x items IH]; intros Hne HP Hs fuel rest Hfuel; [by destruct Hne|].
  apply Forall_cons in HP as [Hx HP].
  simpl in Hs. apply andb_true_iff in Hs as [Hsx Hs].
  change (weights (List.map weight (x :: items)))
    with (S (weight x + weights (List.map weight items))) in Hfuel.
  destruct fuel as [|m]; [lia|].
  rewrite parse_elements_unfold.
  destruct items as [|y items].
  - change (join "," (List.map print [x])) with (print x).
    rewrite (Hx Hsx m (String "]"%char rest)) by (simpl; first [lia | tauto]).
    destruct (sep_bracket rest) as [-> ->]. reflexivity.
  - change (List.map print (x :: y :: items))
      with (print x :: print y :: List.map print items).
    rewrite join_cons2, !append_assoc.
    change ("," +:+ ?a) with (String ","%char a).
    rewrite (Hx Hsx m) by (simpl; first [lia | tauto]).
    rewrite sep_comma.
    change (print y :: List.map print items) with (List.map print (y :: items)).
    rewrite (IH ltac:(discriminate) HP Hs m rest) by lia.
    reflexivity.
Qed.

Lemma parse_members_print (fields : list (string * value)) :
  fields <> [] ->
  Forall (fun kv => serializable (snd kv) = true -> parses (snd kv)) fields ->
  forallb (fun kv => serializable (snd kv)) fields = true ->
  forall fuel rest, weights (List.map (fun kv => weight (snd kv)) fields) <= fuel ->
    parse_members fuel (join "," (List.map print_member fields) +:+ String "}"%char rest)
    = Parsed (fields, rest).
Proof.
  induction fields as [|[k x] fields IH]; intros Hne HP Hs fuel rest Hfuel;
    [by destruct Hne|].
  apply Forall_cons in HP as [Hx HP]. simpl in Hx.
  simpl in Hs. apply andb_true_iff in Hs as [Hsx Hs].
  change (weights (List.map (fun kv => weight (snd kv)) ((k, x) :: fields)))
    with (S (weight x + weights (List.map (fun kv => weight (snd kv)) fields))) in Hfuel.
  destruct fuel as [|m]; [lia|].
  rewrite parse_members_unfold.
  assert (Hmember : forall R,
            print_member (k, x) +:+ R
            = String dquote (escape k +:+ String dquote (String ":"%char (print x +:+ R)))).
  { intros R. unfold print_member, quote. simpl fst. simpl snd.
    simpl String.append. by rewrite !append_assoc. }
  destruct fields as [|kv fields].
  - change (join "," (List.map print_member [(k, x)])) with (print_member (k, x)).
    rewrite Hmember, sep_quote, parse_chars_escape, sep_colon.
    rewrite (Hx Hsx m (String "}"%char rest)) by (simpl; first [lia | tauto]).
    destruct (sep_brace rest) as [-> ->]. reflexivity.
  - change (List.map print_member ((k, x) :: kv :: fields))
      with (print_member (k, x) :: print_member kv :: List.map print_member fields).
    rewrite join_cons2, append_assoc, Hmember, sep_quote, parse_chars_escape, sep_colon.
    rewrite append_assoc.
    change ("," +:+ ?a) with (String ","%char a).
    rewrite (Hx Hsx m) by (simpl; first [lia | tauto]).
    rewrite sep_comma.
    change (print_member kv :: List.map print_member fields)
      with (List.map print_member (kv :: fields)).
    rewrite (IH ltac:(discriminate) HP Hs m rest) by lia.
    reflexivity.
Qed.

Lemma join_first (x : string) (l : list string) (c : ascii) (r : string) :
  x = String c r -> exists r', join "," (x :: l) = String c r'.
Proof.
  intros ->. destruct l as [|y l]; [by eexists|].
  rewrite join_cons2. by eexists.
Qed.

(** Every serializable value is read back from the text [stringify]
    gives it. *)
Lemma parse_value_print (v : value) : serializable v = true -> parses v.
Proof.
  induction v as [| |b|n|s|items IH|fields IH|] using value_nested_ind;
    intros Hs fuel rest Hfuel Hend; try discriminate;
    (destruct fuel as [|m]; [simpl in Hfuel; lia|]).
  - reflexivity.
  - destruct b; reflexivity.
  - destruct (string_of_Z_first n) as (c & r & Hc & Hin).
    change (print (VNum n)) with (string_of_Z n).
    pose proof (parse_number_print n rest Hend) as Hp.
    rewrite Hc in *. simpl String.append in *.
    by rewrite parse_value_number.
  - change (print (VStr s)) with (String dquote (escape s +:+ String dquote "")).
    simpl String.append. rewrite append_assoc. simpl String.append.
    by rewrite parse_value_string, parse_chars_escape.
  - rewrite print_arr. simpl String.append. rewrite append_assoc. simpl String.append.
    rewrite parse_value_array.
    simpl in Hs. simpl in Hfuel.
    destruct items as [|x items].
    + destruct (sep_bracket rest) as [_ Hb]. simpl join. simpl String.append.
      by rewrite Hb.
    + assert (Hx : serializable x = true) by (simpl in Hs; by apply andb_true_iff in Hs as [? _]).
      destruct (print_first x Hx) as (c & r & Hc & Hws & Hbr).
      destruct (join_first (print x) (List.map print items) c r Hc) as [r' Hj].
      change (List.map print (x :: items)) with (print x :: List.map print items).
      assert (Hstart : starts_with "]"%char
                (skip_ws (join "," (print x :: List.map print items)
                          +:+ String "]"%char rest)) = None).
      { rewrite Hj. simpl String.append. rewrite (skip_ws_cons _ _ Hws).
        simpl. by rewrite Hbr. }
      rewrite Hstart.
      change (print x :: List.map print items) with (List.map print (x :: items)).
      rewrite (parse_elements_print (x :: items) ltac:(discriminate) IH Hs m rest) by lia.
      reflexivity.
  - simpl in Hs. rewrite (print_obj _ Hs).
    simpl String.append. rewrite append_assoc. simpl String.append.
    rewrite parse_value_object. simpl in Hfuel.
    destruct fields as [|kv fields].
    + destruct (sep_brace rest) as [_ Hb]. simpl join. simpl String.append.
      by rewrite Hb.
    + assert (Hstart : starts_with "}"%char
                (skip_ws (join "," (List.map print_member (kv :: fields))
                          +:+ String "}"%char rest)) = None).
      { change (List.map print_member (kv :: fields))
          with (print_member kv :: List.map print_member fields).
        destruct (join_first (print_member kv) (List.map print_member fields) dquote
                    ((escape (fst kv) +:+ String dquote "") +:+ ":" +:+ print (snd kv))
                    eq_refl) as [r' Hj].
        rewrite Hj. reflexivity. }
      rewrite Hstart.
      rewrite (parse_members_print (kv :: fields) ltac:(discriminate) IH Hs m rest) by lia.
      reflexivity.
Qed.

Lemma length_append (a b : string) :
  String.length (a +:+ b) = String.length a + String.length b.
Proof. induction a as [|x a IH]; simpl; [reflexivity|by rewrite IH]. Qed.

Lemma append_nil_r (a : string) : a +:+ "" = a.
Proof. induction a as [|x a IH]; simpl; [reflexivity|by rewrite IH]. Qed.

Lemma weights_le_join {A : Type} (w : A -> nat) (p : A -> string) (l : list A) :
  Forall (fun a => w a <= 2 * String.length (p a)) l ->
  weights (List.map w l) <= 2 * String.length (join "," (List.map p l)) + 2.
Proof.
  induction l as [|x l IH]; intros HP; [simpl; lia|].
  apply Forall_cons in HP as [Hx HP]. specialize (IH HP).
  change (weights (List.map w (x :: l))) with (S (w x + weights (List.map w l))).
  destruct l as [|y l].
  - change (join "," (List.map p [x])) with (p x).
    change (weights (List.map w [])) with 0. lia.
  - change (List.map p (x :: y :: l)) with (p x :: p y :: List.map p l).
    rewrite join_cons2, !length_append.
    change (p y :: List.map p l) with (List.map p (y :: l)).
    change (String.length ",") with 1. lia.
Qed.

Lemma weight_le_length (v : value) :
  serializable v = true -> weight v <= 2 * String.length (print v).
Proof.
  induction v as [| |b|n|s|items IH|fields IH|] using value_nested_ind;
    intros Hs; try discriminate.
  - simpl. lia.
  - destruct b; simpl; lia.
  - destruct (print_first (VNum n) Hs) as (c & r & -> & _). simpl. lia.
  - destruct (print_first (VStr s) Hs) as (c & r & -> & _). simpl. lia.
  - simpl in Hs. rewrite print_arr, !length_append.
    change (weight (VArr items)) with (S (weights (List.map weight items))).
    assert (HP : Forall (fun x => weight x <= 2 * String.length (print x)) items).
    { apply Forall_forall. intros x Hx.
      rewrite Forall_forall in IH. apply (IH x Hx).
      rewrite forallb_forall in Hs. apply Hs. by apply list_elem_of_In. }
    pose proof (weights_le_join weight print items HP). simpl String.length. lia.
  - simpl in Hs. rewrite (print_obj _ Hs), !length_append.
    change (weight (VObj fields))
      with (S (weights (List.map (fun kv => weight (snd kv)) fields))).
    assert (HP : Forall (fun kv => weight (snd kv) <= 2 * String.length (print_member kv))
                   fields).
    { apply Forall_forall. intros kv Hkv.
      rewrite Forall_forall in IH. specialize (IH kv Hkv).
      rewrite forallb_forall in Hs. specialize (Hs kv ltac:(by apply list_elem_of_In)).
      specialize (IH Hs). unfold print_member. rewrite !length_append. lia. }
    pose proof (weights_le_join (fun kv => weight (snd kv)) print_member fields HP).
    simpl String.length. lia.
Qed.

(** [JSON.parse(JSON.stringify(v))] is [v] for every serializable [v]. *)
Theorem parse_stringify (v : value) :
  serializable v = true ->
  exists text, stringify v = Some text /\ parse text = Parsed v.
Proof.
  intros Hs. exists (print v). split; [by apply serializable_stringify|].
  unfold parse.
  pose proof (weight_le_length v Hs) as Hw.
  pose proof (parse_value_print v Hs (2 * String.length (print v) + 2) "" ltac:(lia) I) as Hp.
  rewrite append_nil_r in Hp. rewrite Hp. reflexivity.
Qed.

Lemma parse_stringify_object (o : gmap string value) :
  serializable_state o ->
  parse (stringify_object o) = Parsed (VObj (map_to_list o)).
Proof.
  intros Ho.
  assert (Hs : serializable (VObj (map_to_list o)) = true).
  { simpl. apply forallb_forall. intros [k v] Hin.
    apply list_elem_of_In, elem_of_map_to_list in Hin. simpl. by apply (Ho k). }
  destruct (parse_stringify _ Hs) as (text & Ht & Hp).
  unfold stringify_object. rewrite Ht. exact Hp.
Qed.

End JSON_facts.

(** ** Parsing what [init] reads *)

Lemma parse_object_tag : JSON.parse "[object Object]" = JSON.Malformed.
Proof. vm_compute. reflexivity. Qed.

Lemma parse_empty_text : JSON.parse "" = JSON.Malformed.
Proof. vm_compute. reflexivity. Qed.

(** ** Get *)

Lemma get_unfold (this : Store) (n : nat) (key : option string) (args : list value) :
  get this (S n) key args =
  match truthy_key key with
  | Some k =>
      match getters this !! k with
      | Some g => g (get this n) args
      | None =>
          l <- Base.get ;;
          h <- gets (fun s => heap (world s)) ;;
          ret (prop_read (obj_at h l) k)
      end
  | None => l <- Base.get ;; ret (DRef l)
  end.
Proof. reflexivity. Qed.

(** ** Persistence *)

Lemma persist_all_lookup (hs : list handler) (text : string) (ls : gmap string string)
    (K : string) :
  ls !! K = Some text \/ PersistTo K ∈ hs ->
  persist_all hs text ls !! K = Some text.
Proof.
  revert ls. induction hs as [|[k] hs IH]; intros ls [Hls|Hin].
  - exact Hls.
  - by apply elem_of_nil in Hin.
  - simpl. apply IH. left. destruct (decide (k = K)) as [->|Hne].
    + by rewrite lookup_insert_eq.
    + by rewrite lookup_insert_ne.
  - simpl. apply IH. apply elem_of_cons in Hin as [[= ->]|Hin].
    + left. by rewrite lookup_insert_eq.
    + by right.
Qed.

(** [commit] returns [true] only after a mutation it found has returned. *)
Lemma commit_true_inv (H : Host) (this : Store) (k : string) (payload : value) (s s' : St) :
  commit H this k payload s = (Ok true, s') ->
  exists f d h1,
    js_get (mutations this) k = Some f /\
    f (DRef (_state s)) payload (heap (world s)) = (Ok d, h1).
Proof.
  intros Hc.
  destruct (js_get (mutations this) k) as [f|] eqn:Hget.
  - destruct (f (DRef (_state s)) payload (heap (world s))) as [r h1] eqn:Hf.
    destruct r as [d|e|]; [by exists f, d, h1|exfalso..];
      unfold commit in Hc; rewrite Hget in Hc;
      unfold bind, modify, when, emit, gets, run_mutation in Hc;
      destruct (isDev H), (process_browser H); simpl in Hc; rewrite Hf in Hc;
      discriminate.
  - destruct (commit_unresolved H this k payload s Hget) as [msg Hm].
    rewrite Hm in Hc. discriminate.
Qed.


Lemma stringify_object_nonempty (o : gmap string value) : stringify_object o <> "".
Proof. unfold stringify_object. simpl. discriminate. Qed.

Lemma props_of_fields (h : gmap positive (gmap string value)) (o : gmap string value) :
  props_of h (DVal (VObj (map_to_list o))) = o.
Proof. apply assign_map_to_list. Qed.

(** The constructor of [src/store.js] in the browser: an empty state, the
    persistence listener, and nothing read from or written to the
    storage. *)
Lemma constructor_browser (H : Host) (params : Params) (w : World) :
  process_browser H = true ->
  let r := constructor H params w in
  storeKey (fst r) = default "_sapper_store_key_" (p_key params) /\
  state_of (snd r) = ∅ /\
  _handlers (snd r) = [PersistTo (storeKey (fst r))] /\
  localStorage (world (snd r)) = localStorage w.
Proof.
  intros Hbr. unfold constructor, Base.new. rewrite Hbr. simpl.
  split; [reflexivity|]. split; [|split; reflexivity].
  unfold state_of, obj_at. simpl. by rewrite lookup_insert_eq.
Qed.


(** ** The dispatch path *)

(** [dispatch('setCount', 5)] on the server store runs the action, whose
    commit makes the state [{count: 5}] and resets the guard. *)
Example dispatch_setCount :
  let this := fst Examples.server_counter in
  let s := snd Examples.server_counter in
  let r := dispatch Examples.node_production this 2 "setCount" (VNum 5) s in
  fst r = Ok true /\ state_of (snd r) = {[ "count" := VNum 5 ]} /\ status (snd r) = StNoop.
Proof.
  cbv zeta. split; [vm_compute; reflexivity|]. split; vm_compute; reflexivity.
Qed.

(** * The claims *)






(** C3 fails on the code: the existence check reads [this.mutations[key]]
    and [this.actions[key]], which also finds what the table inherits.  On
    [new Store({})] neither table has an entry [toString], yet
    [commit('toString')] returns [true] and writes the characters of
    "[object Object]" into the state, and [dispatch('toString')] returns
    [true] and leaves the guard at action-in-progress. *)
Theorem inherited_name_is_run :
  let this := fst Examples.server_plain in
  let s := snd Examples.server_plain in
  let c := commit Examples.node_production this "toString" VUndefined s in
  let d := dispatch Examples.node_production this 1 "toString" VUndefined s in
  own (mutations this) !! "toString" = None /\
  own (actions this) !! "toString" = None /\
  state_of s = ∅ /\
  fst c = Ok true /\
  state_of (snd c) !! "0" = Some (VStr "[") /\
  size (state_of (snd c)) = 15 /\
  fst d = Ok true /\
  status (snd d) = StAction.
Proof.
  cbv zeta.
  split; [vm_compute; reflexivity|]. split; [vm_compute; reflexivity|].
  split; [vm_compute; reflexivity|]. split; [vm_compute; reflexivity|].
  split; [vm_compute; reflexivity|]. split; [vm_compute; reflexivity|].
  split; vm_compute; reflexivity.
Qed.

(** C4.  When a [set] call has completed, be it a direct call, the one
    [commit] makes or the one [init] makes, and whatever the guard was
    before, the guard is idle. *)
Theorem set_resets_guard (H : Host) (this : Store) (s s' : St) :
  (exists newState, set H newState s = (Ok tt, s')) \/
  (exists k payload, commit H this k payload s = (Ok true, s')) \/
  (exists state, init H this state s = (Ok tt, s')) ->
  status s' = StNoop.
Proof.
  intros [[newState Hset]|[(k & payload & Hc)|[state Hi]]].
  - rewrite set_spec in Hset. by inversion Hset.
  - destruct (commit_true_inv H this k payload s s' Hc) as (f & d & h1 & Hget & Hf).
    rewrite (commit_spec H this k payload s f d h1 Hget Hf) in Hc. by inversion Hc.
  - rewrite init_spec in Hi.
    destruct (process_browser H); [|discriminate].
    destruct (JSON.parse (init_text this s)); try discriminate.
    by inversion Hi.
Qed.

Lemma set_resets_guard_witness :
  let this := fst Examples.server_counter in
  let s := with_status StAction (snd Examples.server_counter) in
  status s = StAction /\
  status (snd (commit Examples.node_production this "SET" (VNum 1) s)) = StNoop.
Proof.
  intros this s. split; [reflexivity|].
  apply (set_resets_guard Examples.node_production this s).
  right. left. exists "SET", (VNum 1).
  vm_compute. reflexivity.
Defined.

(** C5, as stated, fails: with the text "{" persisted under the key,
    [init] throws the [SyntaxError] of [JSON.parse], and so does the
    constructor of the older variant. *)
Lemma malformed_snapshot_throws :
  let this := fst Examples.broken_counter in
  let s := snd Examples.broken_counter in
  localStorage (world s) !! storeKey this = Some "{" /\
  JSON.parse "{" = JSON.Malformed /\
  fst (init Examples.browser_dev this (DVal (VObj [("count", VNum 0)])) s) = Throw SyntaxError /\
  fst (Legacy.constructor Examples.browser_dev Examples.counter_params Examples.broken_world)
    = Throw SyntaxError.
Proof.
  cbv zeta. split; [vm_compute; reflexivity|]. split; [vm_compute; reflexivity|].
  split; vm_compute; reflexivity.
Qed.

(** C5, amended.  In the browser, a persisted text that fails to parse is
    not treated as absent: [init] throws the [SyntaxError] to its caller,
    having set the guard to mutation-in-progress and nothing else, and the
    constructor of the older variant throws it as well (there the empty
    text is skipped). *)
Theorem malformed_snapshot_propagates (H : Host) (this : Store) (state : dyn) (s : St)
    (params : Params) (w : World) (text : string) :
  process_browser H = true ->
  JSON.parse text = JSON.Malformed ->
  (localStorage (world s) !! storeKey this = Some text ->
   init H this state s = (Throw SyntaxError, with_status StMutation s)) /\
  (text <> "" ->
   localStorage w !! default "_sapper_store_key_" (p_key params) = Some text ->
   fst (Legacy.constructor H params w) = Throw SyntaxError).
Proof.
  intros Hbr Hparse. split.
  - intros Hls. rewrite init_spec, Hbr. unfold init_text. rewrite Hls.
    destruct (bool_decide (text = "")).
    + by rewrite parse_object_tag.
    + by rewrite Hparse.
  - intros Hne Hls. unfold Legacy.constructor, Base.new. rewrite Hbr. simpl.
    unfold bind at 1. simpl. rewrite Hls.
    unfold bind at 1. simpl. rewrite (bool_decide_eq_false_2 _ Hne).
    unfold bind at 1. unfold bind at 1. unfold JSON_parse. rewrite Hparse. reflexivity.
Qed.

Lemma malformed_snapshot_propagates_witness :
  let this := fst Examples.broken_counter in
  let s := snd Examples.broken_counter in
  init Examples.browser_dev this (DVal VUndefined) s
    = (Throw SyntaxError, with_status StMutation s) /\
  fst (Legacy.constructor Examples.browser_dev Examples.counter_params Examples.broken_world)
    = Throw SyntaxError.
Proof.
  intros this s.
  destruct (malformed_snapshot_propagates Examples.browser_dev this (DVal VUndefined) s
              Examples.counter_params Examples.broken_world "{") as [Hi Hc].
  - reflexivity.
  - vm_compute. reflexivity.
  - split.
    + apply Hi. vm_compute. reflexivity.
    + apply Hc; [discriminate|vm_compute; reflexivity].
Defined.









(** C9.  In the browser, when the text persisted under the key parses,
    [init(serverState)] completes and the state is the shallow merge of
    [serverState] and the persisted snapshot in which the snapshot wins on
    every key it has. *)
Theorem init_persisted_wins (H : Host) (this : Store) (state : dyn) (s : St)
    (text : string) (v : value) :
  process_browser H = true ->
  localStorage (world s) !! storeKey this = Some text ->
  JSON.parse text = JSON.Parsed v ->
  let snapshot := props_of (heap (world s)) (DVal v) in
  let server := props_of (heap (world s)) (init_arg state) in
  exists s',
    init H this state s = (Ok tt, s') /\
    state_of s' = snapshot ∪ server /\
    (forall x, (is_Some (snapshot !! x) -> state_of s' !! x = snapshot !! x) /\
               (snapshot !! x = None -> state_of s' !! x = server !! x)).
Proof.
  intros Hbr Hls Hparse snapshot server.
  assert (Htext : init_text this s = text).
  { unfold init_text. rewrite Hls. case_bool_decide as He; [|reflexivity].
    subst text. rewrite parse_empty_text in Hparse. discriminate. }
  eexists. split.
  - rewrite init_spec, Hbr, Htext, Hparse. reflexivity.
  - assert (Hst : state_of (init_done H state v s) = snapshot ∪ server).
    { unfold state_of, init_done, obj_at. simpl. by rewrite lookup_insert_eq. }
    rewrite Hst. split; [reflexivity|]. intros x. apply lookup_merge.
Qed.

Lemma init_persisted_wins_witness :
  let this := fst Examples.reloaded_counter in
  let s := snd Examples.reloaded_counter in
  let server := DVal (VObj [("count", VNum 0); ("items", VArr [])]) in
  exists s',
    init Examples.browser_dev this server s = (Ok tt, s') /\
    state_of s' = <[ "items" := VArr [] ]> {[ "count" := VNum 7 ]}.
Proof.
  intros this s server.
  destruct (init_persisted_wins Examples.browser_dev this server s Examples.count_7_text
              (VObj [("count", VNum 7)])) as (s' & Hi & Hs & _).
  - reflexivity.
  - vm_compute. reflexivity.
  - vm_compute. reflexivity.
  - exists s'. split; [exact Hi|]. rewrite Hs. vm_compute. reflexivity.
Defined.

(** C10.  When nothing is persisted under the key, [init] throws and
    leaves the state and the world as they were: in the browser the
    fallback object reaches [JSON.parse] as the text "[object Object]" and
    the exception is its [SyntaxError], elsewhere [window] is unbound.
    When [init] completes, a text that parses is persisted under the
    key. *)
Theorem init_needs_persisted_text (H : Host) (this : Store) (state : dyn) (s : St) :
  (localStorage (world s) !! storeKey this = None ->
   exists e s',
     init H this state s = (Throw e, s') /\
     e = (if process_browser H then SyntaxError else ReferenceError) /\
     _state s' = _state s /\ world s' = world s /\ state_of s' = state_of s) /\
  (forall s',
     init H this state s = (Ok tt, s') ->
     exists text v,
       localStorage (world s) !! storeKey this = Some text /\
       JSON.parse text = JSON.Parsed v).
Proof.
  split.
  - intros Hls. rewrite init_spec. unfold init_text. rewrite Hls, parse_object_tag.
    destruct (process_browser H); do 2 eexists; (split; [reflexivity|]);
      repeat (split; try reflexivity).
  - intros s' Hi. rewrite init_spec in Hi.
    destruct (process_browser H); [|discriminate].
    unfold init_text in Hi.
    destruct (localStorage (world s) !! storeKey this) as [text|];
      [|rewrite parse_object_tag in Hi; discriminate].
    destruct (bool_decide (text = ""));
      [rewrite parse_object_tag in Hi; discriminate|].
    destruct (JSON.parse text) as [v| |] eqn:Hp; try discriminate.
    by exists text, v.
Qed.

Lemma init_needs_persisted_text_witness :
  let this := fst Examples.browser_counter in
  let s := snd Examples.browser_counter in
  exists s',
    init Examples.browser_dev this (DVal VUndefined) s = (Throw SyntaxError, s') /\
    state_of s' = state_of s.
Proof.
  intros this s.
  destruct (init_needs_persisted_text Examples.browser_dev this (DVal VUndefined) s)
    as [Habsent _].
  destruct Habsent as (e & s' & Hi & He & _ & _ & Hst).
  - vm_compute. reflexivity.
  - exists s'. simpl in He. subst e. split; [exact Hi|exact Hst].
Defined.

(** * Further properties of the code *)

(** ** A mutation that does not return *)

(** The closed form of [commit] when the mutation throws or leaves the
    embedding: the guard is set, the events of lines 159 and 162 are
    written, and nothing after the call of the mutation happens. *)
Lemma commit_stop_spec (H : Host) (this : Store) (k : string) (payload : value) (s : St)
    (f : mutation) (r : res dyn) (h1 : gmap positive (gmap string value)) :
  js_get (mutations this) k = Some f ->
  f (DRef (_state s)) payload (heap (world s)) = (r, h1) ->
  (forall d, r <> Ok d) ->
  commit H this k payload s =
  (match r with Throw e => Throw e | _ => OutOfModel end, commit_stopped H k payload s h1).
Proof.
  intros Hget Hf Hr. destruct s as [st cur hd [h ls tr]]. simpl in *.
  unfold commit. rewrite Hget.
  unfold commit_stopped, commit_events, bind, modify, gets, when, emit, ret, run_mutation.
  simpl.
  destruct r as [d|e|]; [by destruct (Hr d)|..];
    destruct (isDev H), (process_browser H); simpl; rewrite Hf; simpl;
    unfold with_world, with_heap, with_trace; simpl;
    rewrite <- ?app_assoc, ?app_nil_r; reflexivity.
Qed.

(** X1.  When the mutation throws, [commit] throws the same exception to
    its caller.  The guard is left at [mutation], the state is still the
    object it was (with whatever the mutation wrote before it threw), no
    [set] takes place: nothing is persisted and no [stateChange] is
    announced; the mutation log line and the [mutation] event have been
    written. *)
Theorem commit_mutation_throws (H : Host) (this : Store) (k : string) (payload : value)
    (s : St) (f : mutation) (e : exn) (h1 : gmap positive (gmap string value)) :
  js_get (mutations this) k = Some f ->
  f (DRef (_state s)) payload (heap (world s)) = (Throw e, h1) ->
  exists s',
    commit H this k payload s = (Throw e, s') /\
    status s' = StMutation /\
    _state s' = _state s /\
    heap (world s') = h1 /\
    localStorage (world s') = localStorage (world s) /\
    trace (world s') = (trace (world s) ++ commit_events H k payload)%list.
Proof.
  intros Hget Hf. eexists. split.
  - apply (commit_stop_spec H this k payload s f (Throw e) h1 Hget Hf). discriminate.
  - repeat split.
Qed.

Lemma commit_mutation_throws_witness :
  let this := fst Readme.browser_store in
  let s := snd Readme.browser_store in
  exists s',
    commit Examples.browser_dev this "ADD_ITEM" (VStr "x") s = (Throw TypeError, s') /\
    status s' = StMutation /\ _state s' = _state s.
Proof.
  intros this s.
  destruct (commit_mutation_throws Examples.browser_dev this "ADD_ITEM" (VStr "x") s
              Readme.ADD_ITEM TypeError (heap (world s)))
    as (s' & Hc & Hst & Hl & _).
  - vm_compute. reflexivity.
  - vm_compute. reflexivity.
  - exists s'. split; [exact Hc|]. split; assumption.
Defined.

(** ** Warnings *)

Lemma filter_warning_set_events (H : Host) (h : gmap positive (gmap string value)) (l : positive) :
  List.filter is_warning (set_events H StMutation h l) = [].
Proof.
  unfold set_events. rewrite bool_decide_eq_false_2 by (intros Hne; by apply Hne).
  simpl. destruct (isDev H), (process_browser H); reflexivity.
Qed.

Lemma filter_warning_commit_events (H : Host) (k : string) (payload : value) :
  List.filter is_warning (commit_events H k payload) = [].
Proof. unfold commit_events. destruct (isDev H), (process_browser H); reflexivity. Qed.

(** X2.  Neither [commit] nor [init] ever writes the warning about
    setting the state directly, whatever the guard was when they were
    called, in every environment and on every path (unknown name, throwing
    mutation, unparseable text included): both set the guard to [mutation]
    before they call [set].  Mutations are those of the embedding, which
    act on the state object and the heap. *)
Theorem commit_and_init_never_warn (H : Host) (this : Store) (k : string) (payload : value)
    (state : dyn) (s : St) :
  List.filter is_warning (trace (world (snd (commit H this k payload s))))
  = List.filter is_warning (trace (world s)) /\
  List.filter is_warning (trace (world (snd (init H this state s))))
  = List.filter is_warning (trace (world s)).
Proof.
  split.
  - destruct (js_get (mutations this) k) as [f|] eqn:Hget.
    + destruct (f (DRef (_state s)) payload (heap (world s))) as [r h1] eqn:Hf.
      destruct r as [d|e|].
      * rewrite (commit_spec H this k payload s f d h1 Hget Hf). simpl.
        rewrite !List.filter_app, filter_warning_commit_events, filter_warning_set_events.
        by rewrite !app_nil_r.
      * rewrite (commit_stop_spec H this k payload s f (Throw e) h1 Hget Hf)
          by discriminate.
        simpl. rewrite List.filter_app, filter_warning_commit_events. by rewrite app_nil_r.
      * rewrite (commit_stop_spec H this k payload s f OutOfModel h1 Hget Hf)
          by discriminate.
        simpl. rewrite List.filter_app, filter_warning_commit_events. by rewrite app_nil_r.
    + destruct (commit_unresolved H this k payload s Hget) as [msg ->]. simpl.
      rewrite List.filter_app. simpl. by rewrite app_nil_r.
  - rewrite init_spec. destruct (process_browser H); [|reflexivity].
    destruct (JSON.parse (init_text this s)); try reflexivity.
    simpl. rewrite List.filter_app, filter_warning_set_events. by rewrite app_nil_r.
Qed.

(** ** Events sent to the window *)

(** X3.  A commit that returns [true] sends exactly two events to
    [window] in the browser, first [mutation] with the mutation's name and
    then [stateChange] with the new state object, and none on the
    server. *)
Theorem commit_window_events (H : Host) (this : Store) (k : string) (payload : value)
    (s s' : St) :
  commit H this k payload s = (Ok true, s') ->
  List.filter is_window_event (trace (world s'))
  = (List.filter is_window_event (trace (world s)) ++
     if process_browser H
     then [window_dispatchEvent "mutation" (DVal (VStr k));
           window_dispatchEvent "stateChange" (DRef (_state s'))]
     else [])%list.
Proof.
  intros Hc.
  destruct (commit_true_inv H this k payload s s' Hc) as (f & d & h1 & Hget & Hf).
  rewrite (commit_spec H this k payload s f d h1 Hget Hf) in Hc.
  injection Hc as <-. simpl. rewrite !List.filter_app. f_equal.
  unfold commit_events, set_events.
  rewrite bool_decide_eq_false_2 by (intros Hne; by apply Hne).
  destruct (isDev H), (process_browser H); reflexivity.
Qed.

Lemma commit_window_events_witness :
  let this := fst Examples.browser_counter in
  let s := snd Examples.browser_counter in
  let s' := snd (commit Examples.browser_dev this "SET" (VNum 7) s) in
  List.filter is_window_event (trace (world s'))
  = [window_dispatchEvent "mutation" (DVal (VStr "SET"));
     window_dispatchEvent "stateChange" (DRef (_state s'))].
Proof.
  intros this s s'.
  apply (commit_window_events Examples.browser_dev this "SET" (VNum 7) s s').
  vm_compute. reflexivity.
Defined.

(** ** What a write persists *)

Lemma persist_all_other (hs : list handler) (text : string) (ls : gmap string string)
    (K : string) :
  PersistTo K ∉ hs -> persist_all hs text ls !! K = ls !! K.
Proof.
  revert ls. induction hs as [|[k] hs IH]; intros ls Hnot; [reflexivity|].
  apply not_elem_of_cons in Hnot as [Hne Hnot]. simpl.
  rewrite (IH _ Hnot). apply lookup_insert_ne. intros ->. by apply Hne.
Qed.

(** X4.  [set] makes the given object the state and, through the
    listener the constructor registered, stores the text of that state
    under the listener's key; every key without a listener keeps what it
    held. *)
Theorem set_persists (H : Host) (newState : positive) (s : St) (K : string) :
  PersistTo K ∈ _handlers s ->
  let s' := snd (set H newState s) in
  state_of s' = obj_at (heap (world s)) newState /\
  localStorage (world s') !! K = Some (stringify_object (state_of s')) /\
  (forall K', PersistTo K' ∉ _handlers s ->
     localStorage (world s') !! K' = localStorage (world s) !! K').
Proof.
  intros Hin. cbv zeta. rewrite set_spec. simpl. split; [reflexivity|]. split.
  - apply persist_all_lookup. by right.
  - intros K'. apply persist_all_other.
Qed.

Lemma set_persists_witness :
  let s := snd Examples.browser_counter in
  let s' := snd (set Examples.browser_dev (_state s) s) in
  localStorage (world s') !! "K" = Some "{}".
Proof.
  intros s s'.
  destruct (set_persists Examples.browser_dev (_state s) s "K") as (Hst & Hls & _).
  - vm_compute. apply list_elem_of_here.
  - fold s' in Hst, Hls. rewrite Hls, Hst. vm_compute. reflexivity.
Defined.

(** ** What the text of a state reads back as *)








(** ** Initialising twice *)

Lemma props_of_alloc (h : gmap positive (gmap string value)) (d : dyn)
    (o : gmap string value) :
  props_of (<[fresh (dom h) := o]> h) d = props_of h d \/
  props_of (<[fresh (dom h) := o]> h) d = o.
Proof.
  destruct d as [v|l| |]; try (left; reflexivity).
  rewrite !props_of_ref. unfold obj_at.
  destruct (decide (l = fresh (dom h))) as [->|Hne].
  - right. by rewrite lookup_insert_eq.
  - left. by rewrite lookup_insert_ne.
Qed.

Lemma state_of_init_done (H : Host) (state : dyn) (v : value) (s : St) :
  state_of (init_done H state v s)
  = props_of (heap (world s)) (DVal v) ∪ props_of (heap (world s)) (init_arg state).
Proof. unfold state_of, init_done, obj_at. simpl. by rewrite lookup_insert_eq. Qed.

(** X6.  [init] is idempotent on serializable states: once [init]
    returned in the browser with the persistence listener registered, a
    second [init] with the same argument returns as well, and leaves the
    same state contents and the same text under the key. *)
Theorem init_twice (H : Host) (this : Store) (state : dyn) (s s1 : St) :
  PersistTo (storeKey this) ∈ _handlers s ->
  init H this state s = (Ok tt, s1) ->
  serializable_state (state_of s1) ->
  exists s2,
    init H this state s1 = (Ok tt, s2) /\
    state_of s2 = state_of s1 /\
    localStorage (world s2) !! storeKey this = localStorage (world s1) !! storeKey this.
Proof.
  intros Hin Hi Hser. rewrite init_spec in Hi.
  destruct (process_browser H) eqn:Hbr; [|discriminate].
  destruct (JSON.parse (init_text this s)) as [v| |] eqn:Hp; try discriminate.
  injection Hi as <-.
  set (h := heap (world s)) in *.
  set (merged := props_of h (DVal v) ∪ props_of h (init_arg state)) in *.
  set (s1 := init_done H state v s) in *.
  assert (Hst : state_of s1 = merged) by apply state_of_init_done.
  assert (Hls : localStorage (world s1) !! storeKey this = Some (stringify_object merged)).
  { unfold s1, init_done. simpl. apply persist_all_lookup. by right. }
  assert (Htext : init_text this s1 = stringify_object merged).
  { unfold init_text. rewrite Hls.
    by rewrite (bool_decide_eq_false_2 _ (stringify_object_nonempty _)). }
  rewrite Hst in Hser.
  assert (Hagain : state_of (init_done H state (VObj (map_to_list merged)) s1) = merged).
  { rewrite state_of_init_done, props_of_fields.
    change (heap (world s1)) with (<[fresh (dom h) := merged]> h).
    destruct (props_of_alloc h (init_arg state) merged) as [-> | ->].
    - unfold merged. by rewrite <- (assoc_L (∪)), (idemp_L (∪)).
    - apply (idemp_L (∪)). }
  eexists. split.
  - rewrite init_spec, Hbr, Htext, (JSON_facts.parse_stringify_object merged Hser).
    reflexivity.
  - split; [by rewrite Hagain, Hst|]. rewrite Hls.
    rewrite state_of_init_done in Hagain.
    change (localStorage (world (init_done H state (VObj (map_to_list merged)) s1)))
      with (persist_all (_handlers s1)
              (stringify_object
                 (props_of (heap (world s1)) (DVal (VObj (map_to_list merged)))
                  ∪ props_of (heap (world s1)) (init_arg state)))
              (localStorage (world s1))).
    rewrite Hagain. apply persist_all_lookup. right. exact Hin.
Qed.

Lemma init_twice_witness :
  let this := fst Examples.reloaded_counter in
  let s := snd Examples.reloaded_counter in
  let state := DVal (VObj [("items", VArr [])]) in
  let s1 := snd (init Examples.browser_dev this state s) in
  exists s2,
    init Examples.browser_dev this state s1 = (Ok tt, s2) /\
    state_of s2 = <["items" := VArr []]> {[ "count" := VNum 7 ]}.
Proof.
  intros this s state s1.
  assert (Hs1 : state_of s1 = <["items" := VArr []]> {[ "count" := VNum 7 ]})
    by (vm_compute; reflexivity).
  destruct (init_twice Examples.browser_dev this state s s1) as (s2 & Hi & Hst & _).
  - vm_compute. apply list_elem_of_here.
  - vm_compute. reflexivity.
  - intros x v Hv. rewrite Hs1 in Hv.
    apply lookup_insert_Some in Hv as [[_ <-]|[_ Hv]]; [reflexivity|].
    apply lookup_singleton_Some in Hv as [_ <-]. reflexivity.
  - exists s2. split; [exact Hi|]. by rewrite Hst.
Defined.

(** ** The constructor *)


(** ** Names that are not in the tables *)

Lemma js_get_object_literal_mutations (t : gmap string mutation) (k : string) :
  t !! k = None -> k ∉ Object_prototype_methods ->
  js_get (object_literal_mutations t) k = None.
Proof.
  intros Hk Hnot. unfold js_get, object_literal_mutations, own, inherited. rewrite Hk.
  apply not_elem_of_list_to_map_1.
  change (k ∉ (List.map (fun name : string => (name, Object_prototype_call t name))
                 Object_prototype_methods).*1).
  intros Hin. apply Hnot. apply list_elem_of_fmap in Hin as ([x y] & -> & Hx).
  apply list_elem_of_In, List.in_map_iff in Hx as (z & Hz & Hx).
  injection Hz as <- _. by apply list_elem_of_In.
Qed.

Lemma js_get_object_literal_actions (t : gmap string action) (k : string) :
  t !! k = None -> k ∉ Object_prototype_methods ->
  js_get (object_literal_actions t) k = None.
Proof.
  intros Hk Hnot. unfold js_get, object_literal_actions, own, inherited. rewrite Hk.
  apply not_elem_of_list_to_map_1.
  change (k ∉ (List.map (fun name : string => (name, Object_prototype_act t name))
                 Object_prototype_methods).*1).
  intros Hin. apply Hnot. apply list_elem_of_fmap in Hin as ([x y] & -> & Hx).
  apply list_elem_of_In, List.in_map_iff in Hx as (z & Hz & Hx).
  injection Hz as <- _. by apply list_elem_of_In.
Qed.

(** X8.  For tables written as object literals, a name that is in
    neither table and is not a method of [Object.prototype] is reported
    and refused: [commit] logs a message and [dispatch] logs an error, in
    every environment (also in production), both return [false], and
    nothing else of the store changes. *)
Theorem unknown_name_is_reported (H : Host) (this : Store) (n : nat) (k : string)
    (payload : value) (s : St) (ms : gmap string mutation) (acts : gmap string action) :
  mutations this = object_literal_mutations ms ->
  actions this = object_literal_actions acts ->
  k ∉ Object_prototype_methods ->
  ms !! k = None ->
  acts !! k = None ->
  (exists msg,
     commit H this k payload s
     = (Ok false, with_world (with_trace (trace (world s) ++ [console_log msg []]) (world s)) s)) /\
  (exists msg,
     dispatch H this (S n) k payload s
     = (Ok false, with_world (with_trace (trace (world s) ++ [console_error msg]) (world s)) s)).
Proof.
  intros Hm Ha Hk Hms Hacts. split.
  - apply commit_unresolved. rewrite Hm. by apply js_get_object_literal_mutations.
  - apply dispatch_unresolved. rewrite Ha. by apply js_get_object_literal_actions.
Qed.

Lemma unknown_name_is_reported_witness :
  let this := fst Examples.server_counter in
  let s := snd Examples.server_counter in
  fst (commit Examples.node_production this "RESET" VUndefined s) = Ok false /\
  fst (dispatch Examples.node_production this 1 "reset" VUndefined s) = Ok false.
Proof.
  intros this s.
  assert (Hc : exists msg,
             commit Examples.node_production this "RESET" VUndefined s
             = (Ok false,
                with_world (with_trace (trace (world s) ++ [console_log msg []]) (world s)) s)).
  { apply (unknown_name_is_reported Examples.node_production this 0 "RESET" VUndefined s
             {[ "SET" := Examples.SET ]} {[ "setCount" := Examples.setCount ]});
      try reflexivity.
    apply (bool_decide_unpack _). vm_compute. exact I. }
  assert (Hd : exists msg,
             dispatch Examples.node_production this 1 "reset" VUndefined s
             = (Ok false,
                with_world (with_trace (trace (world s) ++ [console_error msg]) (world s)) s)).
  { apply (unknown_name_is_reported Examples.node_production this 0 "reset" VUndefined s
             {[ "SET" := Examples.SET ]} {[ "setCount" := Examples.setCount ]});
      try reflexivity.
    apply (bool_decide_unpack _). vm_compute. exact I. }
  destruct Hc as [msg ->]. destruct Hd as [msg' ->]. split; reflexivity.
Defined.

(** ** Dispatch *)

(** The closed form of [dispatch] for a name that resolves to the
    function [f]. *)
Lemma dispatch_spec (H : Host) (this : Store) (n : nat) (k : string) (payload : value)
    (s : St) (f : action) :
  js_get (actions this) k = Some f ->
  dispatch H this (S n) k payload s =
  match f (store_context H this n) payload (dispatch_entered H k s) with
  | (Ok _, s1) => (Ok true, dispatch_left H s1)
  | (Throw e, s1) => (Throw e, s1)
  | (OutOfModel, s1) => (OutOfModel, s1)
  end.
Proof.
  intros Hget. destruct s as [st cur hd [h ls tr]].
  change (dispatch H this (S n) k payload)
    with (match js_get (actions this) k with
          | None =>
              emit (console_error
                      ("Action " +:+ String dquote (k +:+ " doesn't exist."))) ;;
              ret false
          | Some f =>
              when (isDev H) (emit (console_groupCollapsed ("ACTION: " +:+ k))) ;;
              modify (with_status StAction) ;;
              f (store_context H this n) payload ;;
              when (isDev H) (emit console_groupEnd) ;;
              ret true
          end)%store.
  rewrite Hget.
  unfold dispatch_entered, dispatch_left, bind, modify, when, emit, ret,
    with_world, with_trace, with_status.
  destruct (isDev H); simpl.
  - destruct (f _ payload _) as [[[]|e|] s1]; simpl; reflexivity.
  - rewrite app_nil_r.
    destruct (f _ payload _) as [[[]|e|] [st1 l1 hd1 [h1 ls1 tr1]]]; simpl;
      rewrite ?app_nil_r; reflexivity.
Qed.

(** X9.  An exception thrown by the action passes through [dispatch]
    unchanged, in the state the action left: [dispatch] does nothing after
    the call, so the console group it opened stays open and the guard is
    not reset. *)
Theorem dispatch_action_throws (H : Host) (this : Store) (n : nat) (k : string)
    (payload : value) (s s1 : St) (f : action) (e : exn) :
  js_get (actions this) k = Some f ->
  f (store_context H this n) payload (dispatch_entered H k s) = (Throw e, s1) ->
  dispatch H this (S n) k payload s = (Throw e, s1).
Proof.
  intros Hget Hf. by rewrite (dispatch_spec H this n k payload s f Hget), Hf.
Qed.

Lemma dispatch_action_throws_witness :
  let this := fst Readme.browser_store in
  let s := snd Readme.browser_store in
  exists s1,
    dispatch Examples.browser_dev this 1 "addItem" (VStr "x") s = (Throw TypeError, s1) /\
    status s1 = StMutation /\
    last (trace (world s1)) = Some (window_dispatchEvent "mutation" (DVal (VStr "ADD_ITEM"))).
Proof.
  intros this s.
  set (r := Readme.addItem (store_context Examples.browser_dev this 0) (VStr "x")
              (dispatch_entered Examples.browser_dev "addItem" s)).
  exists (snd r). split.
  - apply (dispatch_action_throws Examples.browser_dev this 0 "addItem" (VStr "x") s (snd r)
             Readme.addItem TypeError).
    + vm_compute. reflexivity.
    + vm_compute. reflexivity.
  - split; vm_compute; reflexivity.
Defined.

(** [commit] called inside an action does what it does outside of
    it, except that a refused commit leaves the guard at [action]. *)
Lemma commit_at_entered (H : Host) (this : Store) (k m : string) (payload : value) (s : St) :
  let rc := commit H this m payload s in
  let rd := commit H this m payload (dispatch_entered H k s) in
  fst rd = fst rc /\
  _state (snd rd) = _state (snd rc) /\
  _handlers (snd rd) = _handlers (snd rc) /\
  heap (world (snd rd)) = heap (world (snd rc)) /\
  localStorage (world (snd rd)) = localStorage (world (snd rc)) /\
  status (snd rd) = match fst rc with Ok false => StAction | _ => status (snd rc) end.
Proof.
  cbv zeta.
  destruct (js_get (mutations this) m) as [f|] eqn:Hget.
  - destruct (f (DRef (_state s)) payload (heap (world s))) as [r h1] eqn:Hf.
    destruct r as [d|e|].
    + rewrite (commit_spec H this m payload s f d h1 Hget Hf).
      rewrite (commit_spec H this m payload (dispatch_entered H k s) f d h1 Hget Hf).
      simpl. repeat split.
    + rewrite (commit_stop_spec H this m payload s f (Throw e) h1 Hget Hf) by discriminate.
      rewrite (commit_stop_spec H this m payload (dispatch_entered H k s) f (Throw e) h1
                 Hget Hf) by discriminate.
      simpl. repeat split.
    + rewrite (commit_stop_spec H this m payload s f OutOfModel h1 Hget Hf) by discriminate.
      rewrite (commit_stop_spec H this m payload (dispatch_entered H k s) f OutOfModel h1
                 Hget Hf) by discriminate.
      simpl. repeat split.
  - destruct (commit_unresolved H this m payload s Hget) as [msg ->].
    destruct (commit_unresolved H this m payload (dispatch_entered H k s) Hget) as [msg' ->].
    simpl. repeat split.
Qed.

(** X10.  Dispatching an action that forwards to a mutation, as the
    actions of the README do: [dispatch] returns [true] whenever the
    commit returns, also when the commit returned [false] for an unknown
    mutation, and throws what the commit throws.  State object, heap,
    listeners and storage end as after the commit alone; the guard too,
    except that after a refused commit it stays at [action]. *)
Theorem dispatch_forwarding_action (H : Host) (this : Store) (n : nat) (k m : string)
    (payload : value) (s : St) (f : action) :
  js_get (actions this) k = Some f ->
  (forall context p, f context p = (ctx_commit context m p ;; ret tt)%store) ->
  let rc := commit H this m payload s in
  let rd := dispatch H this (S n) k payload s in
  fst rd = match fst rc with
           | Ok _ => Ok true
           | Throw e => Throw e
           | OutOfModel => OutOfModel
           end /\
  _state (snd rd) = _state (snd rc) /\
  _handlers (snd rd) = _handlers (snd rc) /\
  heap (world (snd rd)) = heap (world (snd rc)) /\
  localStorage (world (snd rd)) = localStorage (world (snd rc)) /\
  status (snd rd) = match fst rc with Ok false => StAction | _ => status (snd rc) end.
Proof.
  intros Hget Hf. cbv zeta.
  rewrite (dispatch_spec H this n k payload s f Hget), Hf.
  destruct (commit_at_entered H this k m payload s) as (Hr & Hl & Hh & Hheap & Hls & Hst).
  unfold bind, ret, store_context. simpl.
  destruct (commit H this m payload (dispatch_entered H k s)) as [r s1].
  simpl in *. rewrite <- Hr in *.
  destruct r as [b|e|]; simpl; repeat split; assumption.
Qed.

Lemma dispatch_forwarding_action_witness :
  let this := fst Readme.server_store in
  let s := snd Readme.server_store in
  let rd := dispatch Examples.node_production this 1 "addItem" (VStr "x") s in
  fst rd = Ok true /\
  state_of (snd rd)
  = {[ "items" := VArr [VStr "I made this"; VStr "Another thing"; VStr "x"] ]}.
Proof.
  intros this s rd.
  destruct (dispatch_forwarding_action Examples.node_production this 0 "addItem" "ADD_ITEM"
              (VStr "x") s Readme.addItem) as (Hr & Hl & _ & Hh & _).
  - vm_compute. reflexivity.
  - reflexivity.
  - fold rd in Hr, Hl, Hh. split.
    + rewrite Hr. vm_compute. reflexivity.
    + unfold state_of. rewrite Hl, Hh. vm_compute. reflexivity.
Defined.

(** X11.  [dispatch] itself never resets the guard: after an action
    that returns without a store call (one that only schedules its commit)
    [dispatch] returns [true] with the guard at [action] and the state as
    it was, so that a [set] that follows is warned about in
    development. *)
Theorem dispatch_leaves_guard (H : Host) (this : Store) (n : nat) (k : string)
    (payload : value) (s : St) (f : action) (l : loc) :
  js_get (actions this) k = Some f ->
  f (store_context H this n) payload (dispatch_entered H k s)
  = (Ok tt, dispatch_entered H k s) ->
  exists s',
    dispatch H this (S n) k payload s = (Ok true, s') /\
    status s' = StAction /\
    state_of s' = state_of s /\
    List.filter is_warning (trace (world (snd (set H l s'))))
    = (List.filter is_warning (trace (world s)) ++
       if isDev H
       then [console_warn "Don't set state directly, you should use a mutation instead"]
       else [])%list.
Proof.
  intros Hget Hf. eexists. split.
  - by rewrite (dispatch_spec H this n k payload s f Hget), Hf.
  - split; [reflexivity|]. split; [reflexivity|].
    rewrite set_spec. simpl. unfold set_events. simpl.
    rewrite !List.filter_app.
    destruct (isDev H), (process_browser H); simpl; rewrite ?app_nil_r; reflexivity.
Qed.

Lemma dispatch_leaves_guard_witness :
  let this := fst Examples.later_store in
  let s := snd Examples.later_store in
  exists s',
    dispatch Examples.browser_dev this 1 "later" VUndefined s = (Ok true, s') /\
    status s' = StAction /\
    List.filter is_warning (trace (world (snd (set Examples.browser_dev (_state s) s'))))
    = [console_warn "Don't set state directly, you should use a mutation instead"].
Proof.
  intros this s.
  destruct (dispatch_leaves_guard Examples.browser_dev this 0 "later" VUndefined s Examples.later
              (_state s)) as (s' & Hd & Hst & _ & Hw).
  - vm_compute. reflexivity.
  - reflexivity.
  - exists s'. split; [exact Hd|]. split; [exact Hst|]. rewrite Hw. reflexivity.
Defined.

(** ** The older variant *)

(** X12.  The older constructor in a browser that holds no text (or
    the empty text) under the key: it returns a store with the empty
    state and the persistence listener, leaves storage and console
    untouched, and leaves the guard at [mutation], so that the first
    direct [set] on the store is not warned about. *)
Theorem legacy_constructor_without_snapshot (H : Host) (params : Params) (w : World) :
  process_browser H = true ->
  (localStorage w !! default "_sapper_store_key_" (p_key params) = None \/
   localStorage w !! default "_sapper_store_key_" (p_key params) = Some "") ->
  exists this s,
    Legacy.constructor H params w = (Ok this, s) /\
    status s = StMutation /\
    state_of s = ∅ /\
    _handlers s = [PersistTo (default "_sapper_store_key_" (p_key params))] /\
    localStorage (world s) = localStorage w /\
    trace (world s) = trace w /\
    (forall l, List.filter is_warning (trace (world (snd (set H l s))))
               = List.filter is_warning (trace w)).
Proof.
  intros Hbr Hls.
  unfold Legacy.constructor, Base.new. rewrite Hbr. simpl.
  assert (Hbody : forall s0 : St,
            localStorage (world s0) = localStorage w ->
            (json <- gets (fun s => localStorage (world s)
                             !! default "_sapper_store_key_" (p_key params)) ;;
             modify (with_status StMutation) ;;
             match json with
             | Some text =>
                 if bool_decide (text = "") then ret tt
                 else
                   parsed <- JSON_parse text ;;
                   h <- gets (fun s => heap (world s)) ;;
                   newState <- alloc (props_of h (DVal parsed)) ;;
                   set H newState
             | None => ret tt
             end ;;
             Base.on_state (PersistTo (default "_sapper_store_key_" (p_key params))))%store s0
            = (Ok tt,
               with_handlers
                 (_handlers s0 ++ [PersistTo (default "_sapper_store_key_" (p_key params))])
                 (with_status StMutation s0))).
  { intros s0 Hs0. unfold bind at 1. unfold gets at 1. rewrite Hs0.
    destruct Hls as [-> | ->]; reflexivity. }
  rewrite Hbody by reflexivity. do 2 eexists. split; [reflexivity|]. simpl.
  split; [reflexivity|]. split.
  { unfold state_of, obj_at. simpl. by rewrite lookup_insert_eq. }
  split; [reflexivity|]. split; [reflexivity|]. split; [reflexivity|].
  intros l. rewrite set_spec. simpl. rewrite List.filter_app, filter_warning_set_events.
  by rewrite app_nil_r.
Qed.

Lemma legacy_constructor_without_snapshot_witness :
  exists this s,
    Legacy.constructor Examples.browser_dev Examples.counter_params Examples.empty_world
    = (Ok this, s) /\
    status s = StMutation /\ state_of s = ∅.
Proof.
  destruct (legacy_constructor_without_snapshot Examples.browser_dev Examples.counter_params
              Examples.empty_world) as (this & s & Hc & Hst & Hs & _).
  - reflexivity.
  - left. reflexivity.
  - exists this, s. split; [exact Hc|]. split; assumption.
Defined.

(** X13.  The older [init], in a store with a registered persistence
    listener, returns whatever the storage holds: the state becomes a copy
    of its argument alone, so what the constructor loaded from the storage
    is dropped, and the text under the listener's key is overwritten with
    the text of the argument.  No warning is written. *)
Theorem legacy_init_replaces (H : Host) (state : dyn) (s : St) (K : string) :
  PersistTo K ∈ _handlers s ->
  exists s',
    Legacy.init H state s = (Ok tt, s') /\
    state_of s' = props_of (heap (world s)) (init_arg state) /\
    status s' = StNoop /\
    localStorage (world s') !! K = Some (stringify_object (state_of s')) /\
    List.filter is_warning (trace (world s')) = List.filter is_warning (trace (world s)).
Proof.
  intros Hin. destruct s as [st cur hd [h ls tr]]. simpl in *.
  unfold Legacy.init. fold (init_arg state).
  unfold bind, gets, alloc, put_heap, modify, ret. simpl. rewrite set_spec. simpl.
  eexists. split; [reflexivity|]. unfold state_of, obj_at. simpl.
  rewrite lookup_insert_eq. simpl.
  split; [reflexivity|]. split; [reflexivity|]. split.
  - apply persist_all_lookup. by right.
  - rewrite List.filter_app, filter_warning_set_events. by rewrite app_nil_r.
Qed.

Lemma legacy_init_replaces_witness :
  let s := snd Examples.legacy_reloaded in
  state_of s = {[ "count" := VNum 7 ]} /\
  exists s',
    Legacy.init Examples.browser_dev (DVal (VObj [("count", VNum 0)])) s = (Ok tt, s') /\
    state_of s' = {[ "count" := VNum 0 ]} /\
    localStorage (world s') !! "K" = Some (stringify_object {[ "count" := VNum 0 ]}).
Proof.
  intros s. split; [vm_compute; reflexivity|].
  destruct (legacy_init_replaces Examples.browser_dev (DVal (VObj [("count", VNum 0)])) s "K")
    as (s' & Hi & Hst & _ & Hls & _).
  - vm_compute. apply list_elem_of_here.
  - assert (Hs : state_of s' = {[ "count" := VNum 0 ]}).
    { rewrite Hst. vm_compute. reflexivity. }
    exists s'. split; [exact Hi|]. split; [exact Hs|]. by rewrite Hls, Hs.
Defined.

Lemma legacy_dispatch_spec (H : Host) (this : Store) (n : nat) (k : string) (payload : value)
    (s : St) (f : action) :
  js_get (actions this) k = Some f ->
  Legacy.dispatch H this (S n) k payload s =
  match f (legacy_context H this n) payload (dispatch_entered H k s) with
  | (Ok _, s1) => (Ok true, dispatch_left H s1)
  | (Throw e, s1) => (Throw e, s1)
  | (OutOfModel, s1) => (OutOfModel, s1)
  end.
Proof.
  intros Hget. destruct s as [st cur hd [h ls tr]].
  change (Legacy.dispatch H this (S n) k payload)
    with (match js_get (actions this) k with
          | None =>
              emit (console_error
                      ("Action " +:+ String dquote (k +:+ " doesn't exist."))) ;;
              ret false
          | Some f =>
              when (isDev H) (emit (console_groupCollapsed ("ACTION: " +:+ k))) ;;
              modify (with_status StAction) ;;
              f (legacy_context H this n) payload ;;
              when (isDev H) (emit console_groupEnd) ;;
              ret true
          end)%store.
  rewrite Hget.
  unfold dispatch_entered, dispatch_left, bind, modify, when, emit, ret,
    with_world, with_trace, with_status.
  destruct (isDev H); simpl.
  - destruct (f _ payload _) as [[[]|e|] s1]; simpl; reflexivity.
  - rewrite app_nil_r.
    destruct (f _ payload _) as [[[]|e|] [st1 l1 hd1 [h1 ls1 tr1]]]; simpl;
      rewrite ?app_nil_r; reflexivity.
Qed.

(** The older [commit] and the [commit] of [src/store.js] differ in
    the events only, and not at all on the server. *)
Lemma legacy_commit_same (H : Host) (this : Store) (k : string) (payload : value) (s : St) :
  fst (Legacy.commit H this k payload s) = fst (commit H this k payload s) /\
  same_but_trace (snd (Legacy.commit H this k payload s)) (snd (commit H this k payload s)) /\
  (process_browser H = false ->
   Legacy.commit H this k payload s = commit H this k payload s).
Proof.
  destruct s as [st cur hd [h ls tr]].
  unfold commit, Legacy.commit, same_but_trace.
  destruct (js_get (mutations this) k) as [f|] eqn:Hget.
  - unfold bind, modify, gets, when, emit, ret, run_mutation, Object_assign, alloc, put_heap.
    simpl.
    destruct (f (DRef cur) payload h) as [r h1] eqn:Hf.
    destruct r as [d|e|];
      destruct (isDev H) eqn:Hdev, (process_browser H) eqn:Hbr; simpl; rewrite ?Hf; simpl;
      rewrite ?set_spec; simpl;
      (split; [reflexivity|]); (split; [repeat split|]);
      first [discriminate | reflexivity].
  - unfold bind, emit, ret. simpl. split; [reflexivity|]. split; [repeat split|].
    reflexivity.
Qed.

(** X14.  The two variants agree up to the events they write: for every
    mutation name the older [commit], and for every action that forwards
    to a mutation the older [dispatch], give the same result as in
    [src/store.js] and leave the same guard, state object, heap,
    listeners and storage. *)
Theorem legacy_agrees (H : Host) (this : Store) (n : nat) (a k : string) (payload : value)
    (s : St) (f : action) :
  js_get (actions this) a = Some f ->
  (forall context p, f context p = (ctx_commit context k p ;; ret tt)%store) ->
  (fst (Legacy.commit H this k payload s) = fst (commit H this k payload s) /\
   same_but_trace (snd (Legacy.commit H this k payload s)) (snd (commit H this k payload s))) /\
  (fst (Legacy.dispatch H this (S n) a payload s) = fst (dispatch H this (S n) a payload s) /\
   same_but_trace (snd (Legacy.dispatch H this (S n) a payload s))
     (snd (dispatch H this (S n) a payload s))).
Proof.
  intros Hget Hf. split.
  - destruct (legacy_commit_same H this k payload s) as (Hr & Hs & _). by split.
  - rewrite (dispatch_spec H this n a payload s f Hget), Hf.
    rewrite (legacy_dispatch_spec H this n a payload s f Hget), Hf.
    unfold bind, ret, store_context, legacy_context. simpl.
    destruct (legacy_commit_same H this k payload (dispatch_entered H a s)) as (Hr & Hs & _).
    destruct (Legacy.commit H this k payload (dispatch_entered H a s)) as [r1 s1].
    destruct (commit H this k payload (dispatch_entered H a s)) as [r2 s2].
    simpl in Hr, Hs. subst r2.
    destruct r1 as [b|e|]; simpl; (split; [reflexivity|]); [|exact Hs..].
    unfold same_but_trace in *. simpl. exact Hs.
Qed.

Lemma legacy_agrees_witness :
  let this := fst Examples.browser_counter in
  let s := snd Examples.browser_counter in
  fst (Legacy.dispatch Examples.browser_dev this 1 "setCount" (VNum 5) s) = Ok true /\
  state_of (snd (Legacy.dispatch Examples.browser_dev this 1 "setCount" (VNum 5) s))
  = {[ "count" := VNum 5 ]}.
Proof.
  intros this s.
  destruct (legacy_agrees Examples.browser_dev this 0 "setCount" "SET" (VNum 5) s
              Examples.setCount) as (_ & Hr & _ & Hl & _ & Hh & _).
  - vm_compute. reflexivity.
  - reflexivity.
  - split.
    + rewrite Hr. vm_compute. reflexivity.
    + unfold state_of. rewrite Hl, Hh. vm_compute. reflexivity.
Defined.

(** X15.  Where no getter is registered under the key, [get] of
    [src/store.js] is the older [get]: the field of the state, or the
    whole snapshot for no key and for the empty string. *)
Theorem legacy_get_agrees (this : Store) (n : nat) (key : option string)
    (args : list value) (s : St) :
  (forall k, truthy_key key = Some k -> getters this !! k = None) ->
  get this (S n) key args s = Legacy.get key s.
Proof.
  intros Hno. rewrite get_unfold. unfold Legacy.get.
  destruct (truthy_key key) as [k|]; [|reflexivity].
  specialize (Hno k eq_refl). destruct (getters this !! k); [discriminate|reflexivity].
Qed.

Lemma legacy_get_agrees_witness :
  let this := fst Examples.server_counter in
  let s := snd Examples.server_counter in
  get this 1 (Some "count") [] s = Legacy.get (Some "count") s /\
  Legacy.get (Some "count") s = (Ok (DVal (VNum 0)), s).
Proof.
  intros this s. split.
  - apply (legacy_get_agrees this 0 (Some "count") [] s).
    intros k Hk. injection Hk as <-. vm_compute. reflexivity.
  - vm_compute. reflexivity.
Defined.

(** ** The store of the README *)

(** A mutation that updates the state object to [o] and returns it:
    the commit returns [true] and the new state holds [o]. *)
Lemma commit_returning_state (H : Host) (this : Store) (k : string) (payload : value)
    (s : St) (f : mutation) (o : gmap string value) :
  js_get (mutations this) k = Some f ->
  f (DRef (_state s)) payload (heap (world s))
  = (Ok (DRef (_state s)), <[_state s := o]> (heap (world s))) ->
  exists s', commit H this k payload s = (Ok true, s') /\ state_of s' = o.
Proof.
  intros Hget Hf. eexists. split.
  - apply (commit_spec H this k payload s f _ _ Hget Hf).
  - unfold state_of, obj_at. simpl. rewrite lookup_insert_eq. simpl.
    rewrite props_of_ref. unfold obj_at. rewrite lookup_insert_eq. simpl.
    apply (idemp_L (∪)).
Qed.

(** X16.  [ADD_ITEM] of the README: on a state whose [items] is an
    array, committing it with any payload returns [true] and appends the
    payload to [items], leaving the other fields as they were. *)
Theorem readme_add_item (H : Host) (this : Store) (payload : value) (s : St)
    (items : list value) :
  js_get (mutations this) "ADD_ITEM" = Some Readme.ADD_ITEM ->
  state_of s !! "items" = Some (VArr items) ->
  exists s',
    commit H this "ADD_ITEM" payload s = (Ok true, s') /\
    state_of s' = <["items" := VArr (items ++ [payload])]> (state_of s).
Proof.
  intros Hget Hitems.
  apply (commit_returning_state H this "ADD_ITEM" payload s Readme.ADD_ITEM _ Hget).
  unfold Readme.ADD_ITEM, Readme.update_items. unfold state_of in Hitems.
  rewrite Hitems. reflexivity.
Qed.

Lemma readme_add_item_witness :
  let this := fst Readme.server_store in
  let s := snd Readme.server_store in
  exists s',
    commit Examples.node_production this "ADD_ITEM" (VStr "x") s = (Ok true, s') /\
    state_of s' = {[ "items" := VArr [VStr "I made this"; VStr "Another thing"; VStr "x"] ]}.
Proof.
  intros this s.
  destruct (readme_add_item Examples.node_production this (VStr "x") s
              [VStr "I made this"; VStr "Another thing"]) as (s' & Hc & Hst).
  - vm_compute. reflexivity.
  - vm_compute. reflexivity.
  - exists s'. split; [exact Hc|]. rewrite Hst. vm_compute. reflexivity.
Defined.

(** X17.  [CLEAR_ITEM] of the README, for an index [i] inside the
    array: with the payload [{ index: i }] the commit removes the item at
    [i]; with the bare number [i] as payload, as in the README's usage
    line, [payload.index] is [undefined] and the commit removes the first
    item, whatever [i] is. *)
Theorem readme_clear_item (H : Host) (this : Store) (s : St) (items : list value) (i : Z) :
  js_get (mutations this) "CLEAR_ITEM" = Some Readme.CLEAR_ITEM ->
  state_of s !! "items" = Some (VArr items) ->
  (0 <= i < Z.of_nat (length items))%Z ->
  (exists s',
     commit H this "CLEAR_ITEM" (VObj [("index", VNum i)]) s = (Ok true, s') /\
     state_of s' = <["items" := VArr (delete (Z.to_nat i) items)]> (state_of s)) /\
  (exists s',
     commit H this "CLEAR_ITEM" (VNum i) s = (Ok true, s') /\
     state_of s' = <["items" := VArr (tail items)]> (state_of s)).
Proof.
  intros Hget Hitems Hi. unfold state_of in Hitems. split.
  - apply (commit_returning_state H this "CLEAR_ITEM" _ s Readme.CLEAR_ITEM _ Hget).
    unfold Readme.CLEAR_ITEM, Readme.update_items. rewrite Hitems.
    unfold Readme.payload_index, assign. simpl. rewrite lookup_insert_eq. simpl.
    unfold Readme.splice_one.
    destruct (Z.ltb_spec i 0) as [Hneg|_]; [lia|].
    rewrite Z.min_l by lia. reflexivity.
  - apply (commit_returning_state H this "CLEAR_ITEM" _ s Readme.CLEAR_ITEM _ Hget).
    unfold Readme.CLEAR_ITEM, Readme.update_items. rewrite Hitems. simpl.
    unfold Readme.splice_one. simpl.
    rewrite Z.min_l by lia. simpl. by destruct items.
Qed.

Lemma readme_clear_item_witness :
  let this := fst Readme.server_store in
  let s := snd Readme.server_store in
  (exists s',
     commit Examples.node_production this "CLEAR_ITEM" (VObj [("index", VNum 1)]) s
     = (Ok true, s') /\
     state_of s' = {[ "items" := VArr [VStr "I made this"] ]}) /\
  (exists s',
     commit Examples.node_production this "CLEAR_ITEM" (VNum 1) s = (Ok true, s') /\
     state_of s' = {[ "items" := VArr [VStr "Another thing"] ]}).
Proof.
  intros this s.
  destruct (readme_clear_item Examples.node_production this s
              [VStr "I made this"; VStr "Another thing"] 1)
    as ((s1 & Hc1 & Hs1) & (s2 & Hc2 & Hs2)).
  - vm_compute. reflexivity.
  - vm_compute. reflexivity.
  - simpl. lia.
  - split.
    + exists s1. split; [exact Hc1|]. rewrite Hs1. vm_compute. reflexivity.
    + exists s2. split; [exact Hc2|]. rewrite Hs2. vm_compute. reflexivity.
Defined.

Lemma truthy_key_nonempty (k : string) : k <> "" -> truthy_key (Some k) = Some k.
Proof. intros Hk. unfold truthy_key. by rewrite (bool_decide_eq_false_2 _ Hk). Qed.

Lemma get_getter (this : Store) (n : nat) (k : string) (args : list value) (g : getter) :
  k <> "" -> getters this !! k = Some g ->
  get this (S n) (Some k) args = g (get this n) args.
Proof.
  intros Hk Hg. rewrite get_unfold, (truthy_key_nonempty k Hk).
  destruct (getters this !! k); [by injection Hg as ->|discriminate].
Qed.

Lemma get_field (this : Store) (n : nat) (k : string) (args : list value) (s : St) :
  k <> "" -> getters this !! k = None ->
  get this (S n) (Some k) args s = (Ok (prop_read (state_of s) k), s).
Proof.
  intros Hk Hg. rewrite get_unfold, (truthy_key_nonempty k Hk).
  destruct (getters this !! k); [discriminate|reflexivity].
Qed.

(** X18.  The getters of the README on a state whose [items] is an
    array: [get('itemCount')] returns its length, [get('item', i)] its
    item at [i] ([undefined] past the end) and [get('item')] its first
    item; none changes the state.  Each needs one nested call of [get]. *)
Theorem readme_getters (this : Store) (n : nat) (s : St) (items : list value) (i : Z) :
  getters this !! "itemCount" = Some Readme.itemCount ->
  getters this !! "item" = Some Readme.item ->
  getters this !! "items" = None ->
  state_of s !! "items" = Some (VArr items) ->
  (0 <= i)%Z ->
  get this (S (S n)) (Some "itemCount") [] s
  = (Ok (DVal (VNum (Z.of_nat (length items)))), s) /\
  get this (S (S n)) (Some "item") [VNum i] s
  = (Ok (DVal (default VUndefined (items !! Z.to_nat i))), s) /\
  get this (S (S n)) (Some "item") [] s
  = (Ok (DVal (default VUndefined (head items))), s).
Proof.
  intros Hcount Hitem Hnone Hitems Hi.
  assert (Hread : get this (S n) (Some "items") [] s = (Ok (DVal (VArr items)), s)).
  { rewrite (get_field this n "items" [] s ltac:(discriminate) Hnone).
    unfold prop_read. by rewrite Hitems. }
  assert (Hall : get this (S n) None [] s = (Ok (DRef (_state s)), s)) by reflexivity.
  unfold state_of in Hitems.
  split; [|split].
  - rewrite (get_getter this (S n) "itemCount" [] _ ltac:(discriminate) Hcount).
    unfold Readme.itemCount, bind. rewrite Hread. reflexivity.
  - rewrite (get_getter this (S n) "item" _ _ ltac:(discriminate) Hitem).
    unfold Readme.item, bind. rewrite Hall.
    unfold Readme.items_of, bind, gets, ret, prop_read. rewrite Hitems.
    unfold Readme.element, ret.
    destruct (Z.ltb_spec i 0); [lia|reflexivity].
  - rewrite (get_getter this (S n) "item" _ _ ltac:(discriminate) Hitem).
    unfold Readme.item, bind. rewrite Hall.
    unfold Readme.items_of, bind, gets, ret, prop_read. rewrite Hitems.
    unfold Readme.element, ret. simpl. by destruct items.
Qed.

Lemma readme_getters_witness :
  let this := fst Readme.server_store in
  let s := snd Readme.server_store in
  get this 2 (Some "itemCount") [] s = (Ok (DVal (VNum 2)), s) /\
  get this 2 (Some "item") [VNum 1] s = (Ok (DVal (VStr "Another thing")), s).
Proof.
  intros this s.
  destruct (readme_getters this 0 s [VStr "I made this"; VStr "Another thing"] 1)
    as (Hc & Hi & _); try (vm_compute; reflexivity).
  - lia.
  - split; [exact Hc|exact Hi].
Defined.

(** ** What the store leaves alone *)

(** X19.  [commit] and [init] write to the storage only under the keys
    of the registered listeners, and never register or remove a listener:
    on every path (also when they throw or refuse the name) a key without
    a listener holds what it held before. *)
Theorem store_writes_only_its_keys (H : Host) (this : Store) (k : string) (payload : value)
    (state : dyn) (s : St) (K : string) :
  PersistTo K ∉ _handlers s ->
  let after_commit := snd (commit H this k payload s) in
  let after_init := snd (init H this state s) in
  localStorage (world after_commit) !! K = localStorage (world s) !! K /\
  localStorage (world after_init) !! K = localStorage (world s) !! K /\
  _handlers after_commit = _handlers s /\
  _handlers after_init = _handlers s.
Proof.
  intros Hnot. cbv zeta.
  assert (Hcommit :
            localStorage (world (snd (commit H this k payload s))) !! K
            = localStorage (world s) !! K /\
            _handlers (snd (commit H this k payload s)) = _handlers s).
  { destruct (js_get (mutations this) k) as [f|] eqn:Hget.
    - destruct (f (DRef (_state s)) payload (heap (world s))) as [r h1] eqn:Hf.
      destruct r as [d|e|].
      + rewrite (commit_spec H this k payload s f d h1 Hget Hf). simpl.
        split; [by apply persist_all_other|reflexivity].
      + rewrite (commit_stop_spec H this k payload s f (Throw e) h1 Hget Hf)
          by discriminate.
        split; reflexivity.
      + rewrite (commit_stop_spec H this k payload s f OutOfModel h1 Hget Hf)
          by discriminate.
        split; reflexivity.
    - destruct (commit_unresolved H this k payload s Hget) as [msg ->].
      split; reflexivity. }
  assert (Hinit :
            localStorage (world (snd (init H this state s))) !! K
            = localStorage (world s) !! K /\
            _handlers (snd (init H this state s)) = _handlers s).
  { rewrite init_spec. destruct (process_browser H); [|split; reflexivity].
    destruct (JSON.parse (init_text this s)); try (split; reflexivity).
    simpl. split; [by apply persist_all_other|reflexivity]. }
  destruct Hcommit as [Hc1 Hc2]. destruct Hinit as [Hi1 Hi2]. by repeat split.
Qed.

Lemma store_writes_only_its_keys_witness :
  let this := fst Examples.browser_counter in
  let s := snd Examples.browser_counter in
  localStorage (world (snd (commit Examples.browser_dev this "SET" (VNum 7) s))) !! "other"
  = None.
Proof.
  intros this s.
  destruct (store_writes_only_its_keys Examples.browser_dev this "SET" (VNum 7)
              (DVal VUndefined) s "other") as (Hc & _).
  - vm_compute. intros Hin. apply list_elem_of_In in Hin. destruct Hin as [Heq|[]].
    discriminate Heq.
  - rewrite Hc. vm_compute. reflexivity.
Defined.

(** ** The store of the README before [init] *)

(** X20.  In the browser the constructor ignores [params.state], so a
    store made with the README's mutations and getters has no [items]
    until [init] has run: committing [ADD_ITEM] or [CLEAR_ITEM] throws a
    [TypeError], and so do [get('itemCount')] and [get('item')]. *)
Theorem readme_browser_needs_init (H : Host) (params : Params) (w : World) (n : nat)
    (payload : value) :
  process_browser H = true ->
  p_mutations params = Some (object_literal_mutations Readme.mutations) ->
  p_getters params = Some Readme.getters ->
  let this := fst (constructor H params w) in
  let s := snd (constructor H params w) in
  state_of s = ∅ /\
  fst (commit H this "ADD_ITEM" payload s) = Throw TypeError /\
  fst (commit H this "CLEAR_ITEM" payload s) = Throw TypeError /\
  get this (S (S n)) (Some "itemCount") [] s = (Throw TypeError, s) /\
  get this (S (S n)) (Some "item") [] s = (Throw TypeError, s).
Proof.
  intros Hbr Hm Hg this s.
  destruct (constructor_browser H params w Hbr) as (_ & Hst & _).
  fold s in Hst. split; [exact Hst|].
  assert (Hmut : mutations this = object_literal_mutations Readme.mutations).
  { unfold this, constructor, Base.new. simpl. by rewrite Hm. }
  assert (Hget : getters this = Readme.getters).
  { unfold this, constructor, Base.new. simpl. by rewrite Hg. }
  assert (Hnone : obj_at (heap (world s)) (_state s) !! "items" = None).
  { change (state_of s !! "items" = None). by rewrite Hst. }
  split; [|split; [|split]].
  - rewrite (commit_stop_spec H this "ADD_ITEM" payload s Readme.ADD_ITEM (Throw TypeError)
               (heap (world s))); [reflexivity| |..|discriminate].
    + by rewrite Hmut.
    + unfold Readme.ADD_ITEM, Readme.update_items. by rewrite Hnone.
  - rewrite (commit_stop_spec H this "CLEAR_ITEM" payload s Readme.CLEAR_ITEM
               (Throw TypeError) (heap (world s))); [reflexivity| |..|discriminate].
    + by rewrite Hmut.
    + unfold Readme.CLEAR_ITEM, Readme.update_items. by rewrite Hnone.
  - rewrite (get_getter this (S n) "itemCount" [] Readme.itemCount);
      [|discriminate|by rewrite Hget].
    unfold Readme.itemCount, bind.
    rewrite (get_field this n "items" [] s); [|discriminate|by rewrite Hget].
    unfold prop_read. rewrite Hst. reflexivity.
  - rewrite (get_getter this (S n) "item" [] Readme.item);
      [|discriminate|by rewrite Hget].
    unfold Readme.item, bind.
    change (get this (S n) None [] s) with (Ok (DRef (_state s)), s).
    unfold Readme.items_of, bind, gets, ret, prop_read. rewrite Hnone. reflexivity.
Qed.

Lemma readme_browser_needs_init_witness :
  let this := fst Readme.browser_store in
  let s := snd Readme.browser_store in
  fst (commit Examples.browser_dev this "ADD_ITEM" (VStr "x") s) = Throw TypeError /\
  get this 2 (Some "itemCount") [] s = (Throw TypeError, s).
Proof.
  intros this s.
  destruct (readme_browser_needs_init Examples.browser_dev Readme.params
              Examples.empty_world 0 (VStr "x")) as (_ & Hc & _ & Hg & _);
    try reflexivity.
  split; [exact Hc|exact Hg].
Defined.
